(** * xiaozishu: the recommendation / pagination core

    A shallow embedding of the paper feed of [src/App.tsx] (the buffer
    manager) and of the service module that feeds it (keyword extraction,
    the ArXiv fetcher behind its proxies, and the Gemini enrichment stage).

    Conventions.
    - A JavaScript string is a sequence of UTF-16 code units.  The model
      keeps the code units below 256 ([ascii]); the two fixed Chinese
      placeholder texts are carried as the bytes of their UTF-8 spelling and
      are never inspected by the code.
    - An [async] function is cut at its [await]s: what runs before the first
      one is a synchronous step, what runs after the promise settles is a
      second step that receives the settled value.
    - Exceptions are values: a computation that can throw returns a
      [completion], and [try]/[catch] is a match on it. *)

From Stdlib Require Import Ascii.
From Stdlib Require String QArith.
From stdpp Require Import base list strings gmap pretty.

(** ** JavaScript strings *)

Module JsString.

Definition code (c : ascii) : N := N_of_ascii c.

Definition between (lo hi : N) (c : ascii) : bool :=
  ((lo <=? code c) && (code c <=? hi))%N.

(** [\w] : letters, digits and the underscore of ASCII. *)
Definition is_word_char (c : ascii) : bool :=
  between 48 57 c || between 65 90 c || between 97 122 c || (code c =? 95)%N.

(** [\s] on code units below 256: TAB, LF, VT, FF, CR, space and NBSP. *)
Definition is_space_char (c : ascii) : bool :=
  between 9 13 c || (code c =? 32)%N || (code c =? 160)%N.

(** The character class [[\s\W]]. *)
Definition is_separator (c : ascii) : bool :=
  is_space_char c || negb (is_word_char c).

(** [toLowerCase] on one code unit: A-Z, and the capital letters of
    Latin-1 (U+00C0 to U+00DE, the multiplication sign U+00D7 apart). *)
Definition lower_char (c : ascii) : ascii :=
  if between 65 90 c
     || (between 192 222 c && negb (code c =? 215)%N)
  then ascii_of_N (code c + 32)
  else c.

Fixpoint toLowerCase (s : string) : string :=
  match s with
  | "" => ""
  | String c s' => String (lower_char c) (toLowerCase s')
  end.

(** [s.startsWith(p)] *)
Definition startsWith (p s : string) : bool := String.prefix p s.

(** [s.includes(p)] *)
Fixpoint includes (p s : string) : bool :=
  startsWith p s ||
  match s with
  | "" => false
  | String _ s' => includes p s'
  end.

(** [l.join(sep)] *)
Fixpoint join (sep : string) (l : list string) : string :=
  match l with
  | [] => ""
  | [x] => x
  | x :: l' => x +:+ sep +:+ join sep l'
  end.

(** [s.split(/[\s\W]+/)].  A separator is a maximal run of separator
    characters; the pieces are what lies between separators, so a string
    that starts or ends with a separator has an empty first or last piece,
    and the empty string splits into one empty piece.  [cur] is the piece
    being read, reversed; [insep] tells that the last character read
    belonged to a separator. *)
Fixpoint split_go (insep : bool) (cur : string) (s : string) : list string :=
  match s with
  | "" => [String.rev cur]
  | String c s' =>
      if is_separator c
      then if insep then split_go true "" s'
           else String.rev cur :: split_go true "" s'
      else split_go false (String c cur) s'
  end.

Definition split_nonword (s : string) : list string := split_go false "" s.

(** [l.slice(-n)] : the last [n] elements, all of them when there are fewer. *)
Definition slice_last {A} (n : nat) (l : list A) : list A :=
  drop (length l - n) l.

(** [[...new Set(l)]] : a [Set] iterates in insertion order, and adding a
    value it already holds changes nothing. *)
Definition set_add (acc : list string) (x : string) : list string :=
  if bool_decide (x ∈ acc) then acc else acc ++ [x].

Definition set_elements (l : list string) : list string :=
  foldl set_add [] l.

End JsString.

Import JsString.

(** ** The keyword extractor ([extractKeywords]) *)

Definition stopWords : list string :=
  ["the"; "a"; "an"; "of"; "for"; "in"; "on"; "with"; "to"; "at"; "by";
   "is"; "are"; "and"; "or"].

(** [w => w.length > 4 && !stopWords.includes(w)] *)
Definition is_keyword (w : string) : bool :=
  (4 <? String.length w)%nat && negb (bool_decide (w ∈ stopWords)).

(** The list [uniqueKeywords] of the source. *)
Definition uniqueKeywords (titles : list string) : list string :=
  let recentTitles := join " " (slice_last 3 titles) in
  let words := split_nonword (toLowerCase recentTitles) in
  let keywords := filter (λ w, is_keyword w = true) words in
  take 3 (set_elements keywords).

Definition extractKeywords (titles : list string) : string :=
  match titles with
  | [] => ""
  | _ =>
      let uniqueKeywords := uniqueKeywords titles in
      match uniqueKeywords with
      | [] => ""
      | _ => join " OR " ((λ k, "all:" +:+ k) <$> uniqueKeywords)
      end
  end.

(** *** The extractor as the specification words it *)

Module KeywordSpec.

(** Tokens: the maximal runs of word characters. *)
Fixpoint tokens_go (cur : string) (s : string) : list string :=
  match s with
  | "" => if cur is "" then [] else [String.rev cur]
  | String c s' =>
      if is_word_char c then tokens_go (String c cur) s'
      else (if cur is "" then [] else [String.rev cur]) ++ tokens_go "" s'
  end.

Definition tokens (s : string) : list string := tokens_go "" s.

(** The most recent [n] titles, oldest first. *)
Definition most_recent {A} (n : nat) (l : list A) : list A :=
  reverse (take n (reverse l)).

(** Deduplication that keeps the first occurrence of each token. *)
Definition dedup_first (l : list string) : list string :=
  reverse (remove_dups (reverse l)).

Definition qualifies (w : string) : Prop :=
  4 < String.length w ∧ w ∉ stopWords.

Global Instance qualifies_dec w : Decision (qualifies w).
Proof. unfold qualifies. apply _. Defined.

(** The keywords kept when the selected titles are joined in the order
    [order] puts them. *)
Definition keywords_in (order : list string → list string)
    (titles : list string) : list string :=
  take 3 (dedup_first
            (filter qualifies
               (tokens (toLowerCase (join " " (order (most_recent 3 titles))))))).

Definition render (kws : list string) : string :=
  join " OR " ((λ k, "all:" +:+ k) <$> kws).

(** The titles joined as the list has them: oldest of the three first. *)
Definition extract (titles : list string) : string :=
  render (keywords_in id titles).

(** The titles reversed by recency (most recent first) and then joined. *)
Definition extract_recency_reversed (titles : list string) : string :=
  render (keywords_in reverse titles).

End KeywordSpec.

(** ** Exceptions *)

Inductive exn : Type :=
  | TypeError (msg : string)
  | SyntaxError (msg : string)
  | Error (msg : string)
  | Rejection (reason : string).

(** How a computation that may throw ends. *)
Inductive completion (A : Type) : Type :=
  | Normal (a : A)
  | Throw (e : exn).
Arguments Normal {A} a.
Arguments Throw {A} e.

Definition bind {A B} (c : completion A) (k : A → completion B) : completion B :=
  match c with
  | Normal a => k a
  | Throw e => Throw e
  end.

Notation "'let*' x ':=' c 'in' k" := (bind c (λ x, k))
  (at level 10, x name, c at level 200, k at level 200).

(** [l.map(f)] with a callback that may throw: elements are visited in
    order and the first exception ends the loop. *)
Fixpoint array_map {A B} (f : A → completion B) (l : list A) : completion (list B) :=
  match l with
  | [] => Normal []
  | a :: l' => let* b := f a in let* bs := array_map f l' in Normal (b :: bs)
  end.

(** ** Values that come out of [JSON.parse]

    A number is taken as the rational it denotes: the code never computes
    with one, it only asks whether it is zero. *)

Set Warnings "-register-all".

Inductive json : Type :=
  | JNull
  | JBool (b : bool)
  | JNum (q : QArith_base.Q)
  | JStr (s : string)
  | JArr (items : list json)
  | JObj (members : list (string * json)).

(** A property read yields a value or [undefined]. *)
Definition jsval : Type := option json.

(** The member of an object under a key; where a JSON text repeats a key
    the last member wins. *)
Fixpoint member (k : string) (members : list (string * json)) : jsval :=
  match members with
  | [] => None
  | (k', v) :: rest =>
      match member k rest with
      | Some v' => Some v'
      | None => if bool_decide (k' = k) then Some v else None
      end
  end.

(** [v.k] for the property names the source reads ([id], [abstract_zh],
    [tldr], [tags]): no prototype defines them, so only an object can have
    one; reading a property of [null] is a TypeError. *)
Definition get_prop (v : json) (k : string) : completion jsval :=
  match v with
  | JNull => Throw (TypeError "Cannot read properties of null")
  | JObj members => Normal (member k members)
  | _ => Normal None
  end.

Definition truthy (v : json) : bool :=
  match v with
  | JNull => false
  | JBool b => b
  | JNum q => negb (QArith_base.Qnum q =? 0)%Z
  | JStr s => negb (bool_decide (s = ""))
  | JArr _ | JObj _ => true
  end.

(** [v || d] *)
Definition or_else (v : jsval) (d : json) : json :=
  match v with
  | Some x => if truthy x then x else d
  | None => d
  end.

(** [v === s] for a string [s] *)
Definition strict_eq_str (v : jsval) (s : string) : bool :=
  match v with
  | Some (JStr t) => bool_decide (t = s)
  | _ => false
  end.

(** [items.find(pred)] : the first element on which [pred] is true, or
    [undefined]; an exception of [pred] ends the search. *)
Fixpoint array_find (pred : json → completion bool) (items : list json)
    : completion jsval :=
  match items with
  | [] => Normal None
  | e :: rest =>
      match pred e with
      | Normal true => Normal (Some e)
      | Normal false => array_find pred rest
      | Throw x => Throw x
      end
  end.

(** [v.find(pred)] on any parsed value: only an array has a [find] that can
    be called. *)
Definition call_find (v : json) (pred : json → completion bool) : completion jsval :=
  match v with
  | JArr items => array_find pred items
  | JNull => Throw (TypeError "Cannot read properties of null")
  | _ => Throw (TypeError "enrichedData.find is not a function")
  end.

(** ** The data model (types.ts and the service module) *)

Module RawArxivPaper.
Record t : Type := mk {
  id : string;
  title : string;
  authors : list string;
  published : string;
  summary : string;
}.
End RawArxivPaper.

(** The last three fields are typed [string], [string] and [string[]] in
    the source but are filled with whatever the enrichment response holds. *)
Module Paper.
Record t : Type := mk {
  id : string;
  title : string;
  authors : list string;
  year : string;
  abstract_en : string;
  abstract_zh : json;
  tldr : json;
  tags : json;
}.
End Paper.

Module RecommendationContext.
Record t : Type := mk {
  likedPapers : list string;
  dislikedPapers : list string;
  currentFocus : string;
}.
End RecommendationContext.

Inductive SwipeDirection : Type := LEFT | RIGHT.

(** ** The enrichment stage ([enrichPapersWithGemini]) *)

(** What the generative-text service did with the one batched request:
    [generateContent] rejected, or resolved to a response whose [text] is a
    string or [undefined]; and the host's [JSON.parse].  The prompt (the
    instructions and the [id], [title], [summary] triples) goes to the
    service and to nothing else, so it is not built here. *)
Module Gemini.
Record t : Type := mk {
  generateContent : completion (option string);
  JSON_parse : string → completion json;
}.
End Gemini.

Definition translating_placeholder : string := "翻译生成中... (Translating...)".
Definition busy_placeholder : string := "暂无翻译 (AI服务繁忙)".

(** The callback of [rawPapers.map] in the [try] block. *)
Definition merge_paper (enrichedData : json) (raw : RawArxivPaper.t)
    : completion Paper.t :=
  let* found :=
    call_find enrichedData
      (λ e, let* i := get_prop e "id" in
            Normal (strict_eq_str i (RawArxivPaper.id raw))) in
  let enriched := from_option id (JObj []) found in
  let* a := get_prop enriched "abstract_zh" in
  let* t := get_prop enriched "tldr" in
  let* g := get_prop enriched "tags" in
  Normal {| Paper.id := RawArxivPaper.id raw;
            Paper.title := RawArxivPaper.title raw;
            Paper.authors := RawArxivPaper.authors raw;
            Paper.year := RawArxivPaper.published raw;
            Paper.abstract_en := RawArxivPaper.summary raw;
            Paper.abstract_zh := or_else a (JStr translating_placeholder);
            Paper.tldr := or_else t (JStr (RawArxivPaper.title raw));
            Paper.tags := or_else g (JArr [JStr "New Paper"]) |}.

(** The callback of [rawPapers.map] in the [catch] block. *)
Definition fallback_paper (raw : RawArxivPaper.t) : Paper.t :=
  {| Paper.id := RawArxivPaper.id raw;
     Paper.title := RawArxivPaper.title raw;
     Paper.authors := RawArxivPaper.authors raw;
     Paper.year := RawArxivPaper.published raw;
     Paper.abstract_en := RawArxivPaper.summary raw;
     Paper.abstract_zh := JStr busy_placeholder;
     Paper.tldr := JStr "New ArXiv Paper";
     Paper.tags := JArr [JStr "ArXiv"] |}.

(** [response.text || "[]"] *)
Definition jsonText_of (text : option string) : string :=
  match text with
  | Some s => if bool_decide (s = "") then "[]" else s
  | None => "[]"
  end.

(** The inner [try]: [enrichedData] stays [[]] when [JSON.parse] throws. *)
Definition parse_enriched (g : Gemini.t) (jsonText : string) : json :=
  match Gemini.JSON_parse g jsonText with
  | Normal v => v
  | Throw _ => JArr []
  end.

(** The body of the outer [try]. *)
Definition enrich_try (g : Gemini.t) (rawPapers : list RawArxivPaper.t)
    : completion (list Paper.t) :=
  let* text := Gemini.generateContent g in
  let jsonText := jsonText_of text in
  let enrichedData := parse_enriched g jsonText in
  array_map (merge_paper enrichedData) rawPapers.

Definition enrichPapersWithGemini (g : Gemini.t) (rawPapers : list RawArxivPaper.t)
    : completion (list Paper.t) :=
  match rawPapers with
  | [] => Normal []
  | _ =>
      match enrich_try g rawPapers with
      | Normal mergedPapers => Normal mergedPapers
      | Throw _ => Normal (fallback_paper <$> rawPapers)
      end
  end.

(** ** More of the string library, for the fetcher *)

Module JsText.

Definition dquote : string := String (ascii_of_N 34) "".

(** [s.split(sep)] for a non-empty string [sep]: the pieces between the
    occurrences of [sep], found from the left and not overlapping.
    [skip] counts the characters of a found separator still to pass. *)
Fixpoint split_on_go (sep : string) (skip : nat) (cur : string) (s : string)
    : list string :=
  match s with
  | "" => [String.rev cur]
  | String c s' =>
      match skip with
      | S k => split_on_go sep k cur s'
      | O =>
          if startsWith sep s
          then String.rev cur :: split_on_go sep (String.length sep - 1) "" s'
          else split_on_go sep 0 (String c cur) s'
      end
  end.

Definition split_on (sep s : string) : list string := split_on_go sep 0 "" s.

(** [s.replace(/\n/g, " ")] *)
Fixpoint replace_newlines (s : string) : string :=
  match s with
  | "" => ""
  | String c s' =>
      String (if (code c =? 10)%N then " "%char else c) (replace_newlines s')
  end.

Fixpoint trimStart (s : string) : string :=
  match s with
  | "" => ""
  | String c s' => if is_space_char c then trimStart s' else s
  end.

(** [s.trim()] *)
Definition trim (s : string) : string :=
  String.rev (trimStart (String.rev (trimStart s))).

Definition hex_digit (n : N) : ascii :=
  ascii_of_N (if (n <? 10)%N then 48 + n else 55 + n).

Definition percent (byte : N) : string :=
  String "%" (String (hex_digit (byte / 16)) (String (hex_digit (byte mod 16)) "")).

(** Left as they are by [encodeURIComponent]: letters, digits and
    [- _ . ! ~ * ' ( )]. *)
Definition unreserved (c : ascii) : bool :=
  between 48 57 c || between 65 90 c || between 97 122 c
  || bool_decide (c ∈ String.list_ascii_of_string "-_.!~*'()").

(** Any other code unit is written as the bytes of its UTF-8 form: one
    byte below 128, two from 128 to 255. *)
Definition encode_char (c : ascii) : string :=
  if unreserved c then String c ""
  else if (code c <? 128)%N then percent (code c)
  else percent (192 + code c / 64) +:+ percent (128 + code c mod 64).

Fixpoint encodeURIComponent (s : string) : string :=
  match s with
  | "" => ""
  | String c s' => encode_char c +:+ encodeURIComponent s'
  end.

End JsText.

Import JsText.

(** ** The source fetcher ([fetchFromArxiv]) *)

(** A settled [fetch]: the response's [ok], [status] and what [text()]
    settles to. *)
Module Response.
Record t : Type := mk {
  ok : bool;
  status : nat;
  text : completion string;
}.
End Response.

(** What the code reads of one [entry] element of the parsed feed: the
    [textContent] of its first [id], [title], [summary] and [published]
    descendant ([None] when there is none), and for each [author] element
    the [textContent] of its first [name]. *)
Module Entry.
Record t : Type := mk {
  id : option string;
  title : option string;
  summary : option string;
  published : option string;
  authors : list (option string);
}.
End Entry.

(** The browser during one call: the network behind [fetch], the outcome
    of [Math.random() > 0.5], and the [entry] elements [DOMParser] finds in
    a text (an exception there would be caught like any other of the
    [try] block). *)
Module Browser.
Record t : Type := mk {
  fetch : string → completion Response.t;
  random_above_half : bool;
  entries : string → completion (list Entry.t);
}.
End Browser.

(** [x || ""] on an optional string *)
Definition or_empty (x : option string) : string := default "" x.

(** The body of the loop over [entries]. *)
Definition paper_of_entry (entry : Entry.t) : RawArxivPaper.t :=
  let idUrl := or_empty (Entry.id entry) in
  let idParts := split_on "/abs/" idUrl in
  let rawId := match idParts with _ :: second :: _ => second | _ => idUrl end in
  let id := default "" (head (split_on "v" rawId)) in
  let title := or_empty ((λ t, trim (replace_newlines t)) <$> Entry.title entry) in
  let summary := or_empty ((λ t, trim (replace_newlines t)) <$> Entry.summary entry) in
  let published :=
    or_empty ((λ t, default "" (head (split_on "T" t))) <$> Entry.published entry) in
  let authors := or_empty <$> Entry.authors entry in
  {| RawArxivPaper.id := id;
     RawArxivPaper.title := title;
     RawArxivPaper.authors := authors;
     RawArxivPaper.published := published;
     RawArxivPaper.summary := summary |}.

Definition proxies : list (string → string) :=
  [ (λ url, "https://api.allorigins.win/raw?url=" +:+ encodeURIComponent url);
    (λ url, "https://corsproxy.io/?" +:+ encodeURIComponent url) ].

(** The body of the [try] block for one proxy. *)
Definition proxy_attempt (b : Browser.t) (url : string)
    : completion (list RawArxivPaper.t) :=
  let* response := Browser.fetch b url in
  if negb (Response.ok response)
  then Throw (Error ("HTTP error " +:+ pretty (Response.status response)))
  else
    let* str := Response.text response in
    if negb (includes "<feed" str) && negb (includes "<entry" str)
    then Throw (Error "Response is not valid ArXiv XML")
    else
      let* entries := Browser.entries b str in
      Normal (paper_of_entry <$> entries).

(** The loop over [proxies]: the first attempt that ends normally is
    returned; an exception is caught (and logged) and the next proxy is
    tried; after the last one the function returns [[]]. *)
Fixpoint try_proxies (b : Browser.t) (targetUrl : string)
    (ps : list (string → string)) : completion (list RawArxivPaper.t) :=
  match ps with
  | [] => Normal []
  | createProxyUrl :: rest =>
      match proxy_attempt b (createProxyUrl targetUrl) with
      | Normal papers => Normal papers
      | Throw _ => try_proxies b targetUrl rest
      end
  end.

Definition baseUrl : string := "https://export.arxiv.org/api/query".

Definition recency_query : string :=
  "all:" +:+ dquote +:+ "autonomous agent" +:+ dquote +:+ " OR all:" +:+ dquote
  +:+ "large language model" +:+ dquote +:+ " OR all:" +:+ dquote
  +:+ "multi-agent" +:+ dquote.

Definition relevance_query (keywords : string) : string :=
  "(all:" +:+ dquote +:+ "autonomous agent" +:+ dquote +:+ " OR all:" +:+ dquote
  +:+ "large language model" +:+ dquote +:+ ") AND (" +:+ keywords +:+ ")".

(** The request the fetcher builds: query, sort field and start offset. *)
Definition targetUrl_of (useRelevanceStrategy : bool) (startIndex : nat)
    (context : RecommendationContext.t) : string :=
  let '(query, sortBy, finalStartIndex) :=
    if useRelevanceStrategy
    then (relevance_query (extractKeywords (RecommendationContext.likedPapers context)),
          "relevance", startIndex mod 50)
    else (recency_query, "submittedDate", startIndex) in
  let encodedQuery := encodeURIComponent query in
  baseUrl +:+ "?search_query=" +:+ encodedQuery +:+ "&start=" +:+ pretty finalStartIndex
  +:+ "&max_results=5&sortBy=" +:+ sortBy +:+ "&sortOrder=descending".

(** [hasLikes && Math.random() > 0.5] *)
Definition useRelevanceStrategy (b : Browser.t) (context : RecommendationContext.t)
    : bool :=
  let hasLikes := 0 <? length (RecommendationContext.likedPapers context) in
  hasLikes && Browser.random_above_half b.

Definition fetchFromArxiv (b : Browser.t) (startIndex : nat)
    (context : RecommendationContext.t) : completion (list RawArxivPaper.t) :=
  let targetUrl := targetUrl_of (useRelevanceStrategy b context) startIndex context in
  try_proxies b targetUrl proxies.

(** ** The pipeline ([fetchRecommendations]) *)

(** The outside world during one fetch cycle. *)
Module World.
Record t : Type := mk {
  browser : Browser.t;
  gemini : Gemini.t;
}.
End World.

Definition fetchRecommendations (w : World.t) (context : RecommendationContext.t)
    (startIndex : nat) : completion (list Paper.t) :=
  let* rawPapers := fetchFromArxiv (World.browser w) startIndex context in
  enrichPapersWithGemini (World.gemini w) rawPapers.

(** ** The buffer manager (the [App] component)

    React's part is modelled as follows.  The state updates a task makes
    are applied together once the task has run to its end; the component
    then renders again, and an effect runs after that render when one of
    its dependencies differs from the render before.  The prefetch effect
    depends on [papers.length] and on the [likedPapers] array (a right
    swipe makes a new array, nothing else does). *)

(** An activation of [loadMorePapers] suspended at its [await]: the
    argument it was called with and the start index it passed on. *)
Module Pending.
Record t : Type := mk {
  currentLiked : list Paper.t;
  isInitialLoad : bool;
  context : RecommendationContext.t;
  startIndex : nat;
}.
End Pending.

Module App.

Record State : Type := mkState {
  papers : list Paper.t;
  likedPapers : list Paper.t;
  loading : bool;
  fetchingRef : bool;
  nextStartIndexRef : nat;
  pending : list Pending.t;
}.

Definition PREFETCH_THRESHOLD : nat := 4.

(** The component before its first effects have run. *)
Definition initial : State :=
  {| papers := []; likedPapers := []; loading := true;
     fetchingRef := false; nextStartIndexRef := 0; pending := [] |}.

(** [loadMorePapers] up to its [await]. *)
Definition loadMorePapers (currentLiked : list Paper.t) (isInitialLoad : bool)
    (st : State) : State :=
  if fetchingRef st then st
  else
    let context :=
      {| RecommendationContext.likedPapers := Paper.title <$> currentLiked;
         RecommendationContext.dislikedPapers := [];
         RecommendationContext.currentFocus := "AI Agents" |} in
    {| papers := papers st;
       likedPapers := likedPapers st;
       loading := if isInitialLoad then true else loading st;
       fetchingRef := true;
       nextStartIndexRef := nextStartIndexRef st;
       pending := pending st ++
         [ {| Pending.currentLiked := currentLiked;
              Pending.isInitialLoad := isInitialLoad;
              Pending.context := context;
              Pending.startIndex := nextStartIndexRef st |} ] |}.

(** The updater passed to [setPapers]. *)
Definition uniqueNew (prev currentLiked newPapers : list Paper.t) : list Paper.t :=
  let existingIds : gset string := list_to_set (Paper.id <$> prev) in
  let currentLikedIds : gset string := list_to_set (Paper.id <$> currentLiked) in
  filter (λ p, (Paper.id p ∉ existingIds) ∧ (Paper.id p ∉ currentLikedIds)) newPapers.

(** [loadMorePapers] from its [await] on: the [try] block's remainder,
    the [catch] and the [finally], for the activation [call] whose
    [fetchRecommendations] settled to [result]. *)
Definition loadMorePapers_resume (call : Pending.t)
    (result : completion (list Paper.t)) (st : State) : State :=
  let '(cursor, buffer) :=
    match result with
    | Normal newPapers =>
        if 0 <? length newPapers
        then (nextStartIndexRef st + length newPapers,
              papers st ++ uniqueNew (papers st) (Pending.currentLiked call) newPapers)
        else (nextStartIndexRef st, papers st)
    | Throw _ => (nextStartIndexRef st, papers st)
    end in
  {| papers := buffer;
     likedPapers := likedPapers st;
     loading := false;
     fetchingRef := false;
     nextStartIndexRef := cursor;
     pending := pending st |}.

(** The prefetch effect. *)
Definition prefetch_effect (st : State) : State :=
  if (length (papers st) <? PREFETCH_THRESHOLD)
     && negb (fetchingRef st)
     && (0 <? length (papers st))
  then loadMorePapers (likedPapers st) false st
  else st.

(** The render that follows a task which took the state from [before] to
    [after]: the prefetch effect runs when a dependency changed. *)
Definition rerender (before after : State) (likedChanged : bool) : State :=
  if negb (length (papers before) =? length (papers after)) || likedChanged
  then prefetch_effect after
  else after.

(** The first render: the initial-load effect, then the prefetch effect. *)
Definition mount (st : State) : State :=
  prefetch_effect (loadMorePapers [] true st).

Definition startup : State := mount initial.

(** [handleSwipe].  [papers[0]] is the card on top of the stack; without
    a card there is nothing to swipe (a drag needs a card on screen, and
    the buttons go through [manualSwipe], which checks
    [papers.length > 0]). *)
Definition handleSwipe (direction : SwipeDirection) (st : State) : option State :=
  match papers st with
  | [] => None
  | currentPaper :: remainingPapers =>
      Some {| papers := remainingPapers;
              likedPapers :=
                match direction with
                | RIGHT => likedPapers st ++ [currentPaper]
                | LEFT => likedPapers st
                end;
              loading := loading st;
              fetchingRef := fetchingRef st;
              nextStartIndexRef := nextStartIndexRef st;
              pending := pending st |}
  end.

Definition liked_changes (direction : SwipeDirection) : bool :=
  match direction with RIGHT => true | LEFT => false end.

Definition drop_pending (i : nat) (st : State) : State :=
  {| papers := papers st;
     likedPapers := likedPapers st;
     loading := loading st;
     fetchingRef := fetchingRef st;
     nextStartIndexRef := nextStartIndexRef st;
     pending := delete i (pending st) |}.

(** What can happen to a mounted component. *)
Inductive event : Type :=
  | Swipe (direction : SwipeDirection)
  | Reload
  | FetchDone (i : nat) (w : World.t).

(** One event and the render after it.  The reload button is shown when
    the buffer is empty and [loading] is off; the model lets it be pressed
    whenever the buffer is empty, which covers a second press that comes
    before the next render.  [FetchDone i w] resumes the [i]-th suspended
    activation in the world [w]. *)
Definition step (e : event) (st : State) : option State :=
  match e with
  | Swipe direction =>
      st' ← handleSwipe direction st;
      Some (rerender st st' (liked_changes direction))
  | Reload =>
      match papers st with
      | [] => Some (rerender st (loadMorePapers (likedPapers st) true st) false)
      | _ :: _ => None
      end
  | FetchDone i w =>
      call ← pending st !! i;
      let result :=
        fetchRecommendations w (Pending.context call) (Pending.startIndex call) in
      let st' := loadMorePapers_resume call result (drop_pending i st) in
      Some (rerender st st' false)
  end.

Fixpoint run (events : list event) (st : State) : option State :=
  match events with
  | [] => Some st
  | e :: rest => st' ← step e st; run rest st'
  end.

(** The states a session can be observed in. *)
Definition reachable (st : State) : Prop :=
  ∃ events, run events startup = Some st.

(** The identifiers on show: buffer, then liked collection. *)
Definition session_ids (st : State) : list string :=
  Paper.id <$> (papers st ++ likedPapers st).

End App.

(** * Vocabulary of the properties *)

(** ** Keyword extraction: the specification's example *)

Definition example_titles : list string :=
  ["Large Language Model Agents"; "Autonomous Planning Systems";
   "Multi Agent Coordination"].

(** ** Enrichment *)

(** What a paper record takes over from the raw record. *)
Definition frame (p : Paper.t) : string * string * list string * string * string :=
  (Paper.id p, Paper.title p, Paper.authors p, Paper.year p, Paper.abstract_en p).

Definition raw_frame (raw : RawArxivPaper.t)
    : string * string * list string * string * string :=
  (RawArxivPaper.id raw, RawArxivPaper.title raw, RawArxivPaper.authors raw,
   RawArxivPaper.published raw, RawArxivPaper.summary raw).

(** What the enrichment response adds. *)
Definition annotation (p : Paper.t) : json * json * json :=
  (Paper.abstract_zh p, Paper.tldr p, Paper.tags p).

(** The annotation of a record the response says nothing about. *)
Definition unannotated (raw : RawArxivPaper.t) : json * json * json :=
  (JStr translating_placeholder, JStr (RawArxivPaper.title raw),
   JArr [JStr "New Paper"]).

(** The fixed annotation used when the call fails. *)
Definition fixed_fallback : json * json * json :=
  (JStr busy_placeholder, JStr "New ArXiv Paper", JArr [JStr "ArXiv"]).

(** The results of a computation that ended normally, each seen through [f]. *)
Definition map_normal {A B} (f : A → B) (c : completion (list A))
    : completion (list B) :=
  match c with
  | Normal l => Normal (f <$> l)
  | Throw e => Throw e
  end.

Infix "<$$>" := map_normal (at level 61, left associativity).

(** The parsed response, when the service answered: an unparsable text
    counts as the empty array. *)
Definition enrichedData_of (g : Gemini.t) : completion json :=
  let* text := Gemini.generateContent g in
  Normal (parse_enriched g (jsonText_of text)).

(** An entry for the identifier [i]: an object whose [id] is the string [i]. *)
Definition is_entry_for (i : string) (e : json) : bool :=
  match e with
  | JObj members => strict_eq_str (member "id" members) i
  | _ => false
  end.

(** The response is an array that holds an entry for [i]. *)
Definition has_entry_for (i : string) (data : json) : bool :=
  match data with
  | JArr items => existsb (is_entry_for i) items
  | _ => false
  end.

(** No entry matches [i]: the call failed, the text did not parse, or the
    parsed value holds no entry for [i]. *)
Definition no_matching_entry (g : Gemini.t) (i : string) : Prop :=
  ∀ data, enrichedData_of g = Normal data → has_entry_for i data = false.

(** ** The source fetcher *)

(** The request sent through a proxy gets a well-formed response, from
    which [papers] are read. *)
Definition delivers (b : Browser.t) (url : string)
    (papers : list RawArxivPaper.t) : Prop :=
  ∃ response str entries,
    Browser.fetch b url = Normal response
    ∧ Response.ok response = true
    ∧ Response.text response = Normal str
    ∧ (includes "<feed" str = true ∨ includes "<entry" str = true)
    ∧ Browser.entries b str = Normal entries
    ∧ papers = paper_of_entry <$> entries.

(** The ways a proxy fails. *)
Inductive fails (b : Browser.t) (url : string) : Prop :=
  | transport_error e :
      Browser.fetch b url = Throw e → fails b url
  | bad_status response :
      Browser.fetch b url = Normal response →
      Response.ok response = false → fails b url
  | unreadable_body response e :
      Browser.fetch b url = Normal response →
      Response.text response = Throw e → fails b url
  | markup_missing response str :
      Browser.fetch b url = Normal response →
      Response.text response = Normal str →
      includes "<feed" str = false → includes "<entry" str = false →
      fails b url
  | parser_error response str e :
      Browser.fetch b url = Normal response →
      Response.text response = Normal str →
      Browser.entries b str = Throw e → fails b url.

(** The URL the fetcher asks the proxies for. *)
Definition targetUrl (b : Browser.t) (startIndex : nat)
    (context : RecommendationContext.t) : string :=
  targetUrl_of (useRelevanceStrategy b context) startIndex context.

(** ** The buffer manager *)

(** The guard flag tells whether an activation is suspended, there is at
    most one, and it was given the cursor as it still stands. *)
Definition guarded (st : App.State) : Prop :=
  if App.fetchingRef st
  then ∃ call, App.pending st = [call]
               ∧ Pending.startIndex call = App.nextStartIndexRef st
  else App.pending st = [].

(** The records swiped right along a run, in the order of the swipes. *)
Fixpoint right_swiped (events : list App.event) (st : App.State) : list Paper.t :=
  match events with
  | [] => []
  | e :: rest =>
      match App.step e st with
      | None => []
      | Some st' =>
          match e, App.papers st with
          | App.Swipe RIGHT, currentPaper :: _ => [currentPaper]
          | _, _ => []
          end ++ right_swiped rest st'
      end
  end.

(** ** Sample worlds *)

Definition sample_entry (i : string) : Entry.t :=
  {| Entry.id := Some ("http://arxiv.org/abs/" +:+ i +:+ "v1");
     Entry.title := Some ("Paper " +:+ i);
     Entry.summary := Some ("Abstract of " +:+ i);
     Entry.published := Some "2023-01-02T10:00:00Z";
     Entry.authors := [Some "A. Author"] |}.

Definition sample_raw (i : string) : RawArxivPaper.t :=
  paper_of_entry (sample_entry i).

(** Every proxy answers with a feed that holds the papers [ids]. *)
Definition feed_of (ids : list string) : Browser.t :=
  {| Browser.fetch := λ _,
       Normal {| Response.ok := true; Response.status := 200;
                 Response.text := Normal "<feed><entry/></feed>" |};
     Browser.random_above_half := false;
     Browser.entries := λ _, Normal (sample_entry <$> ids) |}.

(** The first proxy is unreachable, the second answers. *)
Definition second_proxy_only (ids : list string) : Browser.t :=
  {| Browser.fetch := λ url,
       if startsWith "https://corsproxy.io/" url
       then Normal {| Response.ok := true; Response.status := 200;
                      Response.text := Normal "<feed><entry/></feed>" |}
       else Throw (TypeError "Failed to fetch");
     Browser.random_above_half := false;
     Browser.entries := λ _, Normal (sample_entry <$> ids) |}.

(** No proxy gives a usable answer: the first one answers 500, the second
    one a page that is not a feed. *)
Definition no_proxy_works : Browser.t :=
  {| Browser.fetch := λ url,
       if startsWith "https://corsproxy.io/" url
       then Normal {| Response.ok := true; Response.status := 200;
                      Response.text := Normal "<html>busy</html>" |}
       else Normal {| Response.ok := false; Response.status := 500;
                      Response.text := Normal "" |};
     Browser.random_above_half := false;
     Browser.entries := λ _, Normal [] |}.

(** The generative-text service is down. *)
Definition gemini_down : Gemini.t :=
  {| Gemini.generateContent := Throw (Rejection "503");
     Gemini.JSON_parse := λ _, Throw (SyntaxError "Unexpected end of JSON input") |}.

(** The service answers with a text that parses to [data]. *)
Definition gemini_answers (data : json) : Gemini.t :=
  {| Gemini.generateContent := Normal (Some "[ ... ]");
     Gemini.JSON_parse := λ _, Normal data |}.

Definition sample_annotation (i : string) : json :=
  JObj [("id", JStr i); ("abstract_zh", JStr "zh"); ("tldr", JStr "short");
        ("tags", JArr [JStr "LLM"; JStr "RL"; JStr "Planning"])].

Definition no_likes : RecommendationContext.t :=
  {| RecommendationContext.likedPapers := [];
     RecommendationContext.dislikedPapers := [];
     RecommendationContext.currentFocus := "AI Agents" |}.

Definition world_serving (ids : list string) : World.t :=
  {| World.browser := feed_of ids; World.gemini := gemini_down |}.

Definition five_ids : list string :=
  ["2301.00001"; "2301.00002"; "2301.00003"; "2301.00004"; "2301.00005"].

(** A session in which a card is liked while a fetch is in flight: the
    first batch brings three papers, the prefetch starts at once, the
    first paper is swiped right, and the prefetch's batch brings that paper
    again together with a new one. *)
Definition like_during_fetch : list App.event :=
  [ App.FetchDone 0 (world_serving ["2301.00001"; "2301.00002"; "2301.00003"]);
    App.Swipe RIGHT;
    App.FetchDone 0 (world_serving ["2301.00001"; "2301.00004"]) ].

(** The specification's end-to-end scenario: five papers arrive and are
    liked while five more arrive, two of those are dismissed, a batch of
    duplicates leaves the buffer at three and idle; then one more swipe. *)
Definition to_three_unseen : list App.event :=
  [ App.FetchDone 0 (world_serving five_ids);
    App.Swipe RIGHT; App.Swipe RIGHT;
    App.FetchDone 0 (world_serving
      ["2301.00006"; "2301.00007"; "2301.00008"; "2301.00009"; "2301.00010"]);
    App.Swipe RIGHT; App.Swipe RIGHT; App.Swipe RIGHT;
    App.Swipe LEFT; App.Swipe LEFT;
    App.FetchDone 0 (world_serving five_ids) ].

(** ** Proof automation *)

(** Closes a goal that holds by evaluation. *)
Ltac compute_refl := vm_compute; reflexivity.

(** * The rest of the component and its card *)

(** The code units of a string. *)
Definition chars (s : string) : list ascii := String.list_ascii_of_string s.

(** A lower-case letter, a digit or the underscore. *)
Definition is_lower_word (c : ascii) : bool :=
  is_word_char c && negb (between 65 90 c).

(** ** The card ([PaperCard]) *)

Module PaperCard.

(** The address [openPaper] opens. *)
Definition openPaper_url (paper : Paper.t) : string :=
  "https://arxiv.org/abs/" +:+ Paper.id paper.

(** [paper.id.split('').reduce((acc, char) => char.charCodeAt(0) + acc, 0)] *)
Definition hash (id : string) : N :=
  foldl (λ acc char, code char + acc)%N 0%N (chars id).

Definition hues : list string :=
  ["from-blue-50 to-slate-100"; "from-emerald-50 to-teal-100";
   "from-purple-50 to-fuchsia-100"; "from-orange-50 to-amber-100"].

(** [hues[hash % hues.length]]; [None] stands for [undefined]. *)
Definition bgGradient (paper : Paper.t) : option string :=
  hues !! N.to_nat (hash (Paper.id paper) mod N.of_nat (length hues)).

(** [paper.tags.slice(0, 3).map(tag => ...)] : the tags that get a badge.
    An array is cut to three elements; a string has a [slice] but what it
    gives has no [map], and no other parsed value has a [slice] that can be
    called. *)
Definition tag_badges (tags : json) : completion (list json) :=
  match tags with
  | JArr items => Normal (take 3 items)
  | JStr _ => Throw (TypeError "paper.tags.slice(...).map is not a function")
  | JNull => Throw (TypeError "Cannot read properties of null")
  | _ => Throw (TypeError "paper.tags.slice is not a function")
  end.

End PaperCard.

(** ** What [App] puts on screen *)

Module View.

Inductive EmptyState : Type := Loader | NoMorePapers.

(** [papers.length === 0 && (loading ? ... : ...)] : the skeleton while
    loading, otherwise the message with the reload button. *)
Definition empty_state (st : App.State) : option EmptyState :=
  if length (App.papers st) =? 0
  then Some (if App.loading st then Loader else NoMorePapers)
  else None.

(** The callback of [[...papers].reverse().map]: [null], or a card with
    its [frontCard] flag. *)
Definition card_stack (papers : list Paper.t) : list (option (Paper.t * bool)) :=
  imap (λ index paper,
          let isTop := index =? length papers - 1 in
          if index <? length papers - 2 then None else Some (paper, isTop))
       (reverse papers).

(** The cards that are rendered, in document order. *)
Definition rendered_cards (papers : list Paper.t) : list (Paper.t * bool) :=
  omap id (card_stack papers).

End View.

(** An entry whose [id] element holds the text [idText]. *)
Definition entry_with_id (idText : string) (entry : Entry.t) : Entry.t :=
  {| Entry.id := Some idText;
     Entry.title := Entry.title entry;
     Entry.summary := Entry.summary entry;
     Entry.published := Entry.published entry;
     Entry.authors := Entry.authors entry |}.

(** An entry whose [published] element holds the text [dateText]. *)
Definition entry_with_published (dateText : string) (entry : Entry.t) : Entry.t :=
  {| Entry.id := Entry.id entry;
     Entry.title := Entry.title entry;
     Entry.summary := Entry.summary entry;
     Entry.published := Some dateText;
     Entry.authors := Entry.authors entry |}.

(** A text has no white space at either end. *)
Definition is_trimmed (s : string) : Prop :=
  (∀ c, head (chars s) = Some c → is_space_char c = false)
  ∧ (∀ c, last (chars s) = Some c → is_space_char c = false).

Definition line_feed : ascii := ascii_of_N 10.

(** ** A like while a fetch is in flight *)

(** Three papers arrive, the prefetch starts at once, and the first paper
    is swiped right while that fetch is in flight. *)
Definition liked_in_flight : list App.event :=
  [ App.FetchDone 0 (world_serving ["2301.00001"; "2301.00002"; "2301.00003"]);
    App.Swipe RIGHT ].

(** The world in which the fetch in flight lands: its batch is the paper
    just liked and nothing else. *)
Definition liked_batch : World.t := world_serving ["2301.00001"].

(** ** Merging, said without exceptions *)

(** The first element of the response that is an entry for [i]. *)
Definition first_entry_for (i : string) (items : list json) : option json :=
  List.find (is_entry_for i) items.

(** The annotation a record gets from the entry found for it: each of the
    three fields is the entry's when that is truthy, and its placeholder
    otherwise (the title for the summary). *)
Definition merged_annotation (raw : RawArxivPaper.t) (entry : option json)
    : json * json * json :=
  let members := match entry with Some (JObj members) => members | _ => [] end in
  (or_else (member "abstract_zh" members) (JStr translating_placeholder),
   or_else (member "tldr" members) (JStr (RawArxivPaper.title raw)),
   or_else (member "tags" members) (JArr [JStr "New Paper"])).

(** Closes a decidable goal by evaluating its decision. *)
Ltac decide_by_compute := apply (bool_decide_unpack _); vm_compute; exact I.

(** Membership in a list that is written out. *)
Ltac present_in_list :=
  repeat first [apply list_elem_of_here | apply list_elem_of_further].

Ltac absent_from_list :=
  let H := fresh in
  intros H;
  repeat (apply elem_of_cons in H as [H|H]; [discriminate H|]);
  by apply elem_of_nil in H.

(** * Properties *)

(** ** Keyword extraction *)

Section keyword_extraction.

Lemma separator_iff_not_word c : is_separator c = negb (is_word_char c).
Proof. by destruct c as [[] [] [] [] [] [] [] []]. Qed.

Lemma rev_app_empty s1 s2 : String.rev_app s1 s2 = "" → s1 = "" ∧ s2 = "".
Proof.
  revert s2. induction s1 as [|a s1 IH]; intros s2 H; simpl in H; [done|].
  by apply IH in H as [_ ?].
Qed.

Lemma rev_nonempty a s : String.rev (String a s) ≠ "".
Proof. intros H. by apply rev_app_empty in H as [? _]. Qed.

(** Splitting and dropping the empty pieces gives the tokens. *)
Lemma split_go_tokens s : ∀ insep cur,
  (insep = true → cur = "") →
  filter (λ w, w ≠ "") (split_go insep cur s) = KeywordSpec.tokens_go cur s.
Proof.
  induction s as [|c s IH]; intros insep cur Hcur; simpl.
  - destruct cur as [|a cur].
    + by rewrite filter_cons_False, filter_nil by (by intros []).
    + by rewrite filter_cons_True by exact (rev_nonempty a cur).
  - rewrite separator_iff_not_word. destruct (is_word_char c); simpl.
    + by apply IH.
    + destruct insep.
      * rewrite (Hcur eq_refl). by apply IH.
      * destruct cur as [|a cur].
        -- rewrite filter_cons_False by (by intros []). by apply IH.
        -- rewrite filter_cons_True by exact (rev_nonempty a cur). simpl.
           f_equal. by apply IH.
Qed.

Lemma is_keyword_qualifies w : is_keyword w = true ↔ KeywordSpec.qualifies w.
Proof.
  unfold is_keyword, KeywordSpec.qualifies.
  rewrite andb_true_iff, Nat.ltb_lt, negb_true_iff, bool_decide_eq_false.
  done.
Qed.

Lemma keywords_of_split s :
  filter (λ w, is_keyword w = true) (split_nonword s)
  = filter KeywordSpec.qualifies (KeywordSpec.tokens s).
Proof.
  unfold split_nonword, KeywordSpec.tokens.
  rewrite <- (split_go_tokens s false "") by done.
  rewrite list_filter_filter. apply list_filter_iff. intros w.
  rewrite is_keyword_qualifies. split; [|by intros [? _]].
  intros Hq. split; [done|]. intros ->. destruct Hq as [Hlen _].
  simpl in Hlen. lia.
Qed.

(** A [Set] built from a list lists each value once, in first-seen order. *)
Lemma set_elements_dedup l : set_elements l = KeywordSpec.dedup_first l.
Proof.
  unfold set_elements, KeywordSpec.dedup_first.
  induction l as [|x l IH] using rev_ind; [done|].
  rewrite foldl_snoc, IH, reverse_snoc. simpl. unfold set_add.
  assert (x ∈ reverse (remove_dups (reverse l)) ↔ x ∈ reverse l) as Hin
    by (by rewrite elem_of_reverse, elem_of_remove_dups).
  destruct (decide_rel elem_of x (reverse l)) as [Hx|Hx].
  - by rewrite bool_decide_eq_true_2 by by apply Hin.
  - rewrite bool_decide_eq_false_2 by (by rewrite Hin).
    by rewrite reverse_cons.
Qed.

Lemma slice_last_most_recent {A} n (l : list A) :
  slice_last n l = KeywordSpec.most_recent n l.
Proof.
  unfold slice_last, KeywordSpec.most_recent.
  by rewrite take_reverse, reverse_involutive.
Qed.

Lemma uniqueKeywords_spec titles :
  uniqueKeywords titles = KeywordSpec.keywords_in id titles.
Proof.
  unfold uniqueKeywords, KeywordSpec.keywords_in. simpl.
  by rewrite keywords_of_split, set_elements_dedup, slice_last_most_recent.
Qed.

(** The stop-word test never rejects a token the length test lets
    through: every stop word has at most four letters. *)
Lemma stopWords_short w : w ∈ stopWords → String.length w ≤ 4.
Proof.
  unfold stopWords. intros Hw.
  repeat (apply elem_of_cons in Hw as [->|Hw]; [simpl; lia|]).
  by apply elem_of_nil in Hw.
Qed.

End keyword_extraction.

(** C5, as amended: for every list of liked titles the extractor returns
    what the specified algorithm returns (last three titles, lowercased,
    split into word tokens, stop words and tokens of at most four
    characters dropped, first occurrences kept, first three joined with
    [OR] as [all:] terms, the empty string when nothing qualifies) with the
    three titles joined in list order, oldest first and without any
    reversal; on the example titles that is
    [all:large OR all:language OR all:model]. *)
Theorem extractKeywords_refines_spec :
  (∀ titles, extractKeywords titles = KeywordSpec.extract titles)
  ∧ extractKeywords [] = ""
  ∧ extractKeywords example_titles = "all:large OR all:language OR all:model".
Proof.
  split; [|split; [done|by vm_compute]].
  intros [|t titles]; [done|].
  unfold extractKeywords, KeywordSpec.extract, KeywordSpec.render.
  rewrite uniqueKeywords_spec.
  by destruct (KeywordSpec.keywords_in id (t :: titles)).
Qed.

(** Punctuation separates, case is dropped, short words and repeats go. *)
Example extractKeywords_samples :
  extractKeywords ["Agents, agents and MORE Agents: planning-systems for LLMs"]
  = "all:agents OR all:planning OR all:systems"
  ∧ extractKeywords ["A Tool for the Web"; "On RL"] = ""
  ∧ extractKeywords ["Reasoning"; "Planning"; "Retrieval"; "Alignment"]
    = "all:planning OR all:retrieval OR all:alignment".
Proof. by vm_compute. Qed.

(** C5, as stated, fails on its own example: read from the titles
    reversed by recency and then joined, the first three keywords would be
    [multi], [agent], [coordination]; the code keeps [large], [language],
    [model]. *)
Lemma extractKeywords_not_recency_reversed :
  extractKeywords example_titles = "all:large OR all:language OR all:model"
  ∧ KeywordSpec.extract_recency_reversed example_titles
    = "all:multi OR all:agent OR all:coordination"
  ∧ extractKeywords example_titles
    ≠ KeywordSpec.extract_recency_reversed example_titles.
Proof.
  assert (extractKeywords example_titles
          = "all:large OR all:language OR all:model") as H1 by by vm_compute.
  assert (KeywordSpec.extract_recency_reversed example_titles
          = "all:multi OR all:agent OR all:coordination") as H2 by by vm_compute.
  split; [done|split; [done|]]. by rewrite H1, H2.
Qed.

(** ** The enrichment stage *)

Section enrichment.

Lemma array_map_Normal {A B} (f : A → completion B) l out :
  array_map f l = Normal out → Forall2 (λ a b, f a = Normal b) l out.
Proof.
  revert out. induction l as [|a l IH]; intros out H; simpl in H.
  - injection H as <-. constructor.
  - destruct (f a) as [b|] eqn:Hb; simpl in H; [|done].
    destruct (array_map f l) as [bs|]; simpl in H; [|done].
    injection H as <-. constructor; [done|by apply IH].
Qed.

Lemma array_find_found pred items e :
  array_find pred items = Normal (Some e) → pred e = Normal true.
Proof.
  induction items as [|x items IH]; simpl; [done|].
  destruct (pred x) as [[]|] eqn:Hx; [|done..].
  by intros [= <-].
Qed.

Lemma array_find_elem pred items e :
  array_find pred items = Normal (Some e) → e ∈ items.
Proof.
  induction items as [|x items IH]; simpl; [done|].
  destruct (pred x) as [[]|] eqn:Hx; [| |done].
  - intros [= <-]. left.
  - intros H. right. by apply IH.
Qed.

(** What [find] returns for a raw record is an entry for its identifier. *)
Lemma call_find_entry data i e :
  call_find data
    (λ e, let* v := get_prop e "id" in Normal (strict_eq_str v i))
  = Normal (Some e) →
  has_entry_for i data = true ∧ ∃ members, e = JObj members.
Proof.
  destruct data as [| | | |items|]; simpl; try done.
  intros H. pose proof (array_find_found _ _ _ H) as Hp.
  pose proof (array_find_elem _ _ _ H) as Hin.
  assert (is_entry_for i e = true ∧ ∃ members, e = JObj members) as [He Ho].
  { destruct e; simpl in Hp; try done; try (by injection Hp).
    injection Hp as Hp. eauto. }
  split; [|done]. apply existsb_exists. exists e.
  split; [by apply list_elem_of_In|done].
Qed.

Lemma merge_paper_frame data raw p :
  merge_paper data raw = Normal p → frame p = raw_frame raw.
Proof.
  unfold merge_paper, bind. intros H.
  repeat (case_match; try done). by injection H as <-.
Qed.

Lemma merge_paper_unannotated data raw p :
  has_entry_for (RawArxivPaper.id raw) data = false →
  merge_paper data raw = Normal p →
  annotation p = unannotated raw.
Proof.
  unfold merge_paper. intros Hno H.
  destruct (call_find data _) as [[e|]|] eqn:Hfind; simpl in H; [| |done].
  - apply call_find_entry in Hfind as [Hyes _]. congruence.
  - by injection H as <-.
Qed.

(** The two ways the stage ends: the [catch] block's list, or the
    [try] block's list with every record merged against the parsed
    response. *)
Lemma enrich_cases g rawPapers :
  enrichPapersWithGemini g rawPapers = Normal (fallback_paper <$> rawPapers)
  ∨ ∃ data out,
      enrichedData_of g = Normal data
      ∧ Forall2 (λ raw p, merge_paper data raw = Normal p) rawPapers out
      ∧ enrichPapersWithGemini g rawPapers = Normal out.
Proof.
  destruct rawPapers as [|raw rawPapers]; [by left|].
  unfold enrichPapersWithGemini, enrich_try, enrichedData_of.
  destruct (Gemini.generateContent g) as [text|]; cbn [bind]; [|by left].
  set (data := parse_enriched g (jsonText_of text)).
  destruct (array_map (merge_paper data) (raw :: rawPapers)) as [out|] eqn:Hmap;
    [|by left].
  right. exists data, out. split; [done|]. split; [|done].
  by apply array_map_Normal.
Qed.

Lemma enrich_outright_failure g rawPapers e :
  Gemini.generateContent g = Throw e →
  enrichPapersWithGemini g rawPapers = Normal (fallback_paper <$> rawPapers).
Proof.
  intros H. destruct rawPapers as [|raw rawPapers]; [done|].
  unfold enrichPapersWithGemini, enrich_try. by rewrite H.
Qed.

(** The stage never throws, and its list lines up with the input. *)
Lemma enrich_aligned g rawPapers :
  ∃ out, enrichPapersWithGemini g rawPapers = Normal out
         ∧ Forall2 (λ raw p, frame p = raw_frame raw) rawPapers out.
Proof.
  destruct (enrich_cases g rawPapers) as [H|(data & out & _ & Hall & H)].
  - eexists. split; [done|]. apply Forall2_fmap_r, Forall_Forall2_diag.
    by apply Forall_forall.
  - exists out. split; [done|].
    eapply Forall2_impl; [done|]. intros raw p. apply merge_paper_frame.
Qed.

End enrichment.

(** C3: for every list of raw records and whatever the service does, the
    enrichment stage returns a list of the same length whose record at each
    position carries the identifier of the raw record at that position. *)
Theorem enrich_same_length_same_order g rawPapers :
  ∃ out, enrichPapersWithGemini g rawPapers = Normal out
         ∧ length out = length rawPapers
         ∧ Paper.id <$> out = RawArxivPaper.id <$> rawPapers
         ∧ ∀ i raw, rawPapers !! i = Some raw →
             ∃ p, out !! i = Some p ∧ Paper.id p = RawArxivPaper.id raw.
Proof.
  destruct (enrich_aligned g rawPapers) as (out & Hout & Hall).
  exists out. split; [done|]. split; [symmetry; by eapply Forall2_length|].
  split.
  - clear Hout. induction Hall as [|raw p ?? Hp _ IH]; [done|].
    rewrite !fmap_cons. f_equal; [|done]. by injection Hp.
  - intros i raw Hi.
    destruct (Forall2_lookup_l _ _ _ _ _ Hall Hi) as (p & Hp & Hf).
    exists p. split; [done|]. by injection Hf.
Qed.

(** C10: for every raw record and every enrichment outcome the output
    record has the raw record's identifier, title, authors, publication
    date and English abstract; these five fields are the same under any
    two behaviours of the service. *)
Theorem enrich_frame g rawPapers :
  ∃ out, enrichPapersWithGemini g rawPapers = Normal out
         ∧ frame <$> out = raw_frame <$> rawPapers
         ∧ ∀ g', ∃ out', enrichPapersWithGemini g' rawPapers = Normal out'
                         ∧ frame <$> out' = frame <$> out.
Proof.
  assert (∀ g, ∃ out, enrichPapersWithGemini g rawPapers = Normal out
                      ∧ frame <$> out = raw_frame <$> rawPapers) as H.
  { intros g0. destruct (enrich_aligned g0 rawPapers) as (out & Hout & Hall).
    exists out. split; [done|]. clear Hout.
    induction Hall as [|raw p ?? Hp _ IH]; [done|].
    rewrite !fmap_cons. by f_equal. }
  destruct (H g) as (out & Hout & Hf). exists out. split; [done|].
  split; [done|]. intros g'. destruct (H g') as (out' & Hout' & Hf').
  exists out'. split; [done|]. by rewrite Hf, Hf'.
Qed.

(** C7: a raw record with no matching or parsable enrichment entry still
    has its record in the output, with the original English abstract and a
    placeholder translated abstract and placeholder tag; and when the call
    itself fails every record of the batch gets the fixed fallback
    annotation. *)
Theorem enrich_fallbacks g rawPapers :
  ∃ out, enrichPapersWithGemini g rawPapers = Normal out
    ∧ (∀ i raw, rawPapers !! i = Some raw →
         no_matching_entry g (RawArxivPaper.id raw) →
         ∃ p, out !! i = Some p
              ∧ Paper.abstract_en p = RawArxivPaper.summary raw
              ∧ (annotation p = unannotated raw ∨ annotation p = fixed_fallback))
    ∧ (∀ e, Gemini.generateContent g = Throw e →
         out = fallback_paper <$> rawPapers
         ∧ Forall (λ p, annotation p = fixed_fallback) out).
Proof.
  destruct (enrich_aligned g rawPapers) as (out & Hout & Hall).
  exists out. split; [done|]. split.
  - intros i raw Hi Hno.
    destruct (Forall2_lookup_l _ _ _ _ _ Hall Hi) as (p & Hp & Hf).
    exists p. split; [done|]. split; [by injection Hf|].
    destruct (enrich_cases g rawPapers) as [H|(data & out' & Hd & Hall' & H)];
      rewrite Hout in H; injection H as ->.
    + right. rewrite list_lookup_fmap, Hi in Hp. by injection Hp as <-.
    + left. destruct (Forall2_lookup_l _ _ _ _ _ Hall' Hi) as (p' & Hp' & Hm).
      rewrite Hp in Hp'. injection Hp' as <-.
      eapply merge_paper_unannotated; [|done]. by apply Hno.
  - intros e He. rewrite (enrich_outright_failure _ _ _ He) in Hout.
    injection Hout as <-. split; [done|].
    apply Forall_fmap, Forall_forall. by intros raw _.
Qed.

(** One record has an entry in the response, the other has none. *)
Lemma enrich_fallbacks_witness :
  ∃ out p,
    enrichPapersWithGemini (gemini_answers (JArr [sample_annotation "2301.00001"]))
      (sample_raw <$> ["2301.00001"; "2301.00002"]) = Normal out
    ∧ out !! 1 = Some p
    ∧ Paper.abstract_en p = "Abstract of 2301.00002"
    ∧ (annotation p = unannotated (sample_raw "2301.00002")
       ∨ annotation p = fixed_fallback).
Proof.
  destruct (enrich_fallbacks (gemini_answers (JArr [sample_annotation "2301.00001"]))
              (sample_raw <$> ["2301.00001"; "2301.00002"]))
    as (out & Hout & Hno & _).
  destruct (Hno 1 (sample_raw "2301.00002") eq_refl) as (p & Hp & Hen & Han).
  { intros data [= <-]. by vm_compute. }
  by exists out, p.
Defined.

(** The merge on sample responses: a matched record takes the entry's
    annotation and an unmatched one the placeholders; a [null] among the
    entries, or a response that is not an array, makes [find] throw, and
    the whole batch then gets the fixed fallback; an entry whose fields are
    empty or [null] is filled with the placeholders. *)
Example enrich_samples :
  let raws := sample_raw <$> ["2301.00001"; "2301.00002"] in
  (annotation <$$> enrichPapersWithGemini
     (gemini_answers (JArr [sample_annotation "2301.00001"])) raws)
  = Normal [(JStr "zh", JStr "short", JArr [JStr "LLM"; JStr "RL"; JStr "Planning"]);
            unannotated (sample_raw "2301.00002")]
  ∧ (annotation <$$> enrichPapersWithGemini
       (gemini_answers (JArr [sample_annotation "2301.00001"; JNull])) raws)
    = Normal [fixed_fallback; fixed_fallback]
  ∧ (annotation <$$> enrichPapersWithGemini (gemini_answers (JObj [])) raws)
    = Normal [fixed_fallback; fixed_fallback]
  ∧ (annotation <$$> enrichPapersWithGemini
       (gemini_answers
          (JArr [JObj [("id", JStr "2301.00002"); ("abstract_zh", JStr "");
                       ("tldr", JNull)]])) raws)
    = Normal [unannotated (sample_raw "2301.00001");
              unannotated (sample_raw "2301.00002")]
  ∧ (annotation <$$> enrichPapersWithGemini gemini_down raws)
    = Normal [fixed_fallback; fixed_fallback].
Proof. by vm_compute. Qed.

(** ** The source fetcher *)

Section fetcher.

Context (b : Browser.t).

Lemma proxy_attempt_delivers url papers :
  proxy_attempt b url = Normal papers ↔ delivers b url papers.
Proof.
  unfold proxy_attempt, delivers, bind. split.
  - intros H.
    destruct (Browser.fetch b url) as [response|]; [|done].
    destruct (Response.ok response) eqn:Hok; simpl in H; [|done].
    destruct (Response.text response) as [str|] eqn:Htext; [|done].
    destruct (includes "<feed" str) eqn:Hfeed,
             (includes "<entry" str) eqn:Hentry; simpl in H; try done;
      (destruct (Browser.entries b str) as [entries|] eqn:He; [|done];
       injection H as <-; exists response, str, entries;
       rewrite ?Hfeed, ?Hentry; naive_solver).
  - intros (response & str & entries & -> & -> & -> & Hm & -> & ->). simpl.
    by destruct Hm as [-> | ->]; [|rewrite andb_false_r].
Qed.

Lemma proxy_attempt_fails url :
  fails b url → ∃ e, proxy_attempt b url = Throw e.
Proof.
  unfold proxy_attempt, bind.
  intros [e H|r H Hok|r e H Ht|r str H Ht Hf He|r str e H Ht He];
    rewrite H; [by eexists| |destruct (Response.ok r); simpl..].
  - rewrite Hok. by eexists.
  - rewrite Ht. by eexists.
  - by eexists.
  - rewrite Ht, Hf, He. by eexists.
  - by eexists.
  - rewrite Ht.
    destruct (negb (includes "<feed" str) && negb (includes "<entry" str));
      [by eexists|]. rewrite He. by eexists.
  - by eexists.
Qed.

Lemma proxy_attempt_throws url e :
  proxy_attempt b url = Throw e → fails b url.
Proof.
  unfold proxy_attempt, bind. intros H.
  destruct (Browser.fetch b url) as [response|] eqn:Hr;
    [|by eapply transport_error].
  destruct (Response.ok response) eqn:Hok; simpl in H;
    [|by eapply bad_status].
  destruct (Response.text response) as [str|] eqn:Htext;
    [|by eapply unreadable_body].
  destruct (includes "<feed" str) eqn:Hfeed,
           (includes "<entry" str) eqn:Hentry; simpl in H;
    try (by eapply markup_missing);
    (destruct (Browser.entries b str) as [entries|] eqn:He; [done|];
     by eapply parser_error).
Qed.

Lemma try_proxies_total url ps : ∃ papers, try_proxies b url ps = Normal papers.
Proof.
  induction ps as [|p ps IH]; simpl; [by eexists|].
  destruct (proxy_attempt b (p url)); [by eexists|done].
Qed.

Lemma try_proxies_first url ps : ∀ k createProxyUrl papers,
  ps !! k = Some createProxyUrl →
  (∀ j p, j < k → ps !! j = Some p → fails b (p url)) →
  delivers b (createProxyUrl url) papers →
  try_proxies b url ps = Normal papers.
Proof.
  induction ps as [|p ps IH]; intros k c papers Hk Hbefore Hc; [done|].
  simpl. destruct k as [|k]; simpl in Hk.
  - injection Hk as ->. apply proxy_attempt_delivers in Hc. by rewrite Hc.
  - destruct (proxy_attempt_fails (p url)) as [e ->];
      [by apply (Hbefore 0 p); [lia|]|].
    apply (IH k c); [done| |done].
    intros j q Hj Hq. apply (Hbefore (S j) q); [lia|done].
Qed.

Lemma try_proxies_all_fail url ps :
  (∀ p, p ∈ ps → fails b (p url)) → try_proxies b url ps = Normal [].
Proof.
  induction ps as [|p ps IH]; intros Hall; [done|]. simpl.
  destruct (proxy_attempt_fails (p url)) as [e ->]; [apply Hall; left|].
  apply IH. intros q Hq. apply Hall. by right.
Qed.

(** Whatever is returned was read from a proxy's well-formed response,
    or is empty because every proxy failed. *)
Lemma try_proxies_source url ps papers :
  try_proxies b url ps = Normal papers →
  (∃ k createProxyUrl,
      ps !! k = Some createProxyUrl
      ∧ (∀ j p, j < k → ps !! j = Some p → fails b (p url))
      ∧ delivers b (createProxyUrl url) papers)
  ∨ (papers = [] ∧ ∀ p, p ∈ ps → fails b (p url)).
Proof.
  revert papers. induction ps as [|p ps IH]; intros papers H; simpl in H.
  - right. split; [by injection H|]. by intros p ?%elem_of_nil.
  - destruct (proxy_attempt b (p url)) as [found|e] eqn:Hp.
    + left. exists 0, p. injection H as <-. split; [done|].
      split; [intros; lia|]. by apply proxy_attempt_delivers.
    + apply proxy_attempt_throws in Hp.
      destruct (IH papers H) as [(k & c & Hk & Hbefore & Hc)|[-> Hall]].
      * left. exists (S k), c. split; [done|]. split; [|done].
        intros [|j] q Hj Hq; simpl in Hq; [by injection Hq as <-|].
        apply (Hbefore j q); [lia|done].
      * right. split; [done|].
        intros q [->|Hq]%elem_of_cons; [done|by apply Hall].
Qed.

End fetcher.

(** C8: for every cursor and context the fetcher returns and never throws;
    the proxies are tried in their fixed order and the first well-formed
    response is the one used; and when every proxy fails (transport error,
    bad status, unreadable or unexpected body) the result is the empty
    list. *)
Theorem fetchFromArxiv_never_throws b startIndex context :
  (∃ papers, fetchFromArxiv b startIndex context = Normal papers)
  ∧ (∀ k createProxyUrl papers,
       proxies !! k = Some createProxyUrl →
       (∀ j p, j < k → proxies !! j = Some p →
          fails b (p (targetUrl b startIndex context))) →
       delivers b (createProxyUrl (targetUrl b startIndex context)) papers →
       fetchFromArxiv b startIndex context = Normal papers)
  ∧ ((∀ p, p ∈ proxies → fails b (p (targetUrl b startIndex context))) →
       fetchFromArxiv b startIndex context = Normal [])
  ∧ (∀ papers, fetchFromArxiv b startIndex context = Normal papers →
       papers ≠ [] →
       ∃ k createProxyUrl,
         proxies !! k = Some createProxyUrl
         ∧ (∀ j p, j < k → proxies !! j = Some p →
              fails b (p (targetUrl b startIndex context)))
         ∧ delivers b (createProxyUrl (targetUrl b startIndex context)) papers).
Proof.
  unfold fetchFromArxiv, targetUrl. split; [apply try_proxies_total|].
  split; [apply try_proxies_first|]. split; [apply try_proxies_all_fail|].
  intros papers H Hne.
  by destruct (try_proxies_source _ _ _ _ H) as [?|[-> _]].
Qed.

(** With the first proxy unreachable the second one's feed is used; with
    a 500 from the first and a page that is no feed from the second the
    result is empty. *)
Lemma fetchFromArxiv_never_throws_witness :
  fetchFromArxiv (second_proxy_only ["2301.00001"]) 0 no_likes
  = Normal [sample_raw "2301.00001"]
  ∧ fetchFromArxiv no_proxy_works 0 no_likes = Normal [].
Proof.
  split.
  - destruct (fetchFromArxiv_never_throws (second_proxy_only ["2301.00001"]) 0 no_likes)
      as (_ & Hfirst & _).
    apply (Hfirst 1 (λ url, "https://corsproxy.io/?" +:+ encodeURIComponent url));
      [done| |].
    + intros [|j] p Hj Hp; [|lia]. injection Hp as <-.
      by eapply transport_error; vm_compute.
    + eexists _, _, _. split; [by vm_compute|]. split; [done|].
      split; [done|]. split; [by left; vm_compute|]. by split.
  - destruct (fetchFromArxiv_never_throws no_proxy_works 0 no_likes)
      as (_ & _ & Hnone & _).
    apply Hnone. intros p Hp. unfold proxies in Hp.
    apply elem_of_cons in Hp as [->|Hp];
      [by eapply bad_status; vm_compute|].
    apply elem_of_cons in Hp as [->|Hp]; [|by apply elem_of_nil in Hp].
    by eapply markup_missing; vm_compute.
Defined.

(** The request that goes out: the relevance strategy asks for the
    keywords of the liked titles and keeps the offset below 50. *)
Example targetUrl_samples :
  targetUrl_of false 7 no_likes
  = "https://export.arxiv.org/api/query?search_query=all%3A%22autonomous%20agent%22%20OR%20all%3A%22large%20language%20model%22%20OR%20all%3A%22multi-agent%22&start=7&max_results=5&sortBy=submittedDate&sortOrder=descending"
  ∧ targetUrl_of true 57
      {| RecommendationContext.likedPapers := example_titles;
         RecommendationContext.dislikedPapers := [];
         RecommendationContext.currentFocus := "AI Agents" |}
    = "https://export.arxiv.org/api/query?search_query=(all%3A%22autonomous%20agent%22%20OR%20all%3A%22large%20language%20model%22)%20AND%20(all%3Alarge%20OR%20all%3Alanguage%20OR%20all%3Amodel)&start=7&max_results=5&sortBy=relevance&sortOrder=descending".
Proof. by vm_compute. Qed.

(** Reading an entry: the identifier loses its URL prefix and its version,
    titles lose their line breaks, the date loses its time of day. *)
Example paper_of_entry_sample :
  paper_of_entry
    {| Entry.id := Some "http://arxiv.org/abs/2301.00001v3";
       Entry.title := Some (" Agents" +:+ String (ascii_of_N 10) "" +:+ "  that plan ");
       Entry.summary := None;
       Entry.published := Some "2023-01-02T10:00:00Z";
       Entry.authors := [Some "A. Author"; None] |}
  = {| RawArxivPaper.id := "2301.00001";
       RawArxivPaper.title := "Agents   that plan";
       RawArxivPaper.authors := ["A. Author"; ""];
       RawArxivPaper.published := "2023-01-02";
       RawArxivPaper.summary := "" |}.
Proof. by vm_compute. Qed.

(** ** The buffer manager *)

Section buffer_manager.

Import App.

(** *** What the parts of a step leave alone *)

Lemma loadMorePapers_papers cl init st :
  papers (loadMorePapers cl init st) = papers st
  ∧ likedPapers (loadMorePapers cl init st) = likedPapers st
  ∧ nextStartIndexRef (loadMorePapers cl init st) = nextStartIndexRef st.
Proof. unfold loadMorePapers. by destruct (fetchingRef st). Qed.

Lemma prefetch_effect_papers st :
  papers (prefetch_effect st) = papers st
  ∧ likedPapers (prefetch_effect st) = likedPapers st
  ∧ nextStartIndexRef (prefetch_effect st) = nextStartIndexRef st.
Proof.
  unfold prefetch_effect. case_match; [apply loadMorePapers_papers|done].
Qed.

Lemma rerender_papers before after changed :
  papers (rerender before after changed) = papers after
  ∧ likedPapers (rerender before after changed) = likedPapers after
  ∧ nextStartIndexRef (rerender before after changed) = nextStartIndexRef after.
Proof.
  unfold rerender. case_match; [apply prefetch_effect_papers|done].
Qed.

(** *** The guard *)

Lemma loadMorePapers_noop cl init st :
  fetchingRef st = true → loadMorePapers cl init st = st.
Proof. unfold loadMorePapers. by intros ->. Qed.

Lemma prefetch_effect_noop st :
  fetchingRef st = true → prefetch_effect st = st.
Proof.
  intros H. unfold prefetch_effect.
  case_match; [by apply loadMorePapers_noop|done].
Qed.

Lemma loadMorePapers_guarded cl init st :
  guarded st → guarded (loadMorePapers cl init st).
Proof.
  unfold guarded, loadMorePapers.
  destruct (fetchingRef st) eqn:Hf; [by rewrite Hf|].
  intros ->. simpl. by eexists.
Qed.

Lemma prefetch_effect_guarded st : guarded st → guarded (prefetch_effect st).
Proof.
  unfold prefetch_effect. case_match; [apply loadMorePapers_guarded|done].
Qed.

Lemma rerender_guarded before after changed :
  guarded after → guarded (rerender before after changed).
Proof. unfold rerender. case_match; [apply prefetch_effect_guarded|done]. Qed.

Lemma guarded_pending st i call :
  guarded st → pending st !! i = Some call →
  fetchingRef st = true ∧ pending st = [call] ∧ i = 0
  ∧ Pending.startIndex call = nextStartIndexRef st.
Proof.
  unfold guarded. destruct (fetchingRef st).
  - intros (c & Hp & Hc) Hi. rewrite Hp in Hi.
    destruct i as [|i]; [|done]. injection Hi as <-. by rewrite Hp.
  - by intros ->.
Qed.

Lemma resume_idle call result st i :
  guarded st → pending st !! i = Some call →
  let st' := loadMorePapers_resume call result (drop_pending i st) in
  fetchingRef st' = false ∧ pending st' = [].
Proof.
  intros Hg Hi. destruct (guarded_pending _ _ _ Hg Hi) as (_ & Hp & -> & _).
  unfold loadMorePapers_resume, drop_pending. simpl. rewrite Hp.
  by repeat case_match.
Qed.

Lemma step_guarded e st st' : guarded st → step e st = Some st' → guarded st'.
Proof.
  intros Hg. destruct e as [d| |i w]; simpl.
  - unfold handleSwipe. destruct (papers st) as [|p rest]; [done|]. simpl.
    intros [= <-]. by apply rerender_guarded.
  - destruct (papers st); [|done]. intros [= <-].
    by apply rerender_guarded, loadMorePapers_guarded.
  - destruct (pending st !! i) as [call|] eqn:Hi; [|done]. simpl.
    intros [= <-]. apply rerender_guarded.
    destruct (resume_idle call
      (fetchRecommendations w (Pending.context call) (Pending.startIndex call))
      st i Hg Hi) as [Hf Hp].
    unfold guarded. by rewrite Hf.
Qed.

Lemma run_guarded events : ∀ st st',
  guarded st → run events st = Some st' → guarded st'.
Proof.
  induction events as [|e events IH]; intros st st' Hg; simpl.
  - by intros [= <-].
  - destruct (step e st) as [st1|] eqn:He; [|done]. simpl.
    apply IH. by eapply step_guarded.
Qed.

Lemma startup_guarded : guarded startup.
Proof. unfold guarded. simpl. by eexists. Qed.

Lemma reachable_guarded st : reachable st → guarded st.
Proof. intros [events H]. eapply run_guarded; [apply startup_guarded|done]. Qed.

Lemma reachable_step e st st' :
  reachable st → step e st = Some st' → reachable st'.
Proof.
  intros [events H] He. exists (events ++ [e]).
  revert H. generalize startup. induction events as [|x events IH];
    intros s; simpl.
  - intros [= ->]. by rewrite He.
  - destruct (step x s); [|done]. simpl. apply IH.
Qed.

(** *** The filter *)

Lemma uniqueNew_spec prev currentLiked newPapers p :
  p ∈ uniqueNew prev currentLiked newPapers ↔
  p ∈ newPapers ∧ (Paper.id p ∉ Paper.id <$> prev)
  ∧ (Paper.id p ∉ Paper.id <$> currentLiked).
Proof.
  unfold uniqueNew. rewrite list_elem_of_filter, !elem_of_list_to_set.
  tauto.
Qed.

Lemma uniqueNew_ids_unique prev currentLiked newPapers :
  NoDup (Paper.id <$> newPapers) →
  NoDup (Paper.id <$> uniqueNew prev currentLiked newPapers).
Proof.
  unfold uniqueNew. induction newPapers as [|p l IH]; [done|].
  rewrite fmap_cons, NoDup_cons. intros [Hp Hl].
  rewrite filter_cons. case_decide; [|by apply IH].
  rewrite fmap_cons, NoDup_cons. split; [|by apply IH].
  intros (q & Hq & Hin)%list_elem_of_fmap. apply Hp.
  apply list_elem_of_fmap. exists q. split; [done|].
  by apply list_elem_of_filter in Hin as [_ ?].
Qed.

(** What the filter is there for: when the copy of the liked list it
    was given is the liked list as it stands, and the batch repeats no
    identifier, appending the batch keeps the identifiers of buffer and
    liked list distinct. *)
Lemma resume_keeps_ids_unique call newPapers st :
  Pending.currentLiked call = likedPapers st →
  NoDup (Paper.id <$> newPapers) →
  NoDup (session_ids st) →
  NoDup (session_ids (loadMorePapers_resume call (Normal newPapers) st)).
Proof.
  unfold session_ids, loadMorePapers_resume. intros -> Hnew Hst.
  destruct (0 <? length newPapers); [|done]. simpl.
  rewrite !fmap_app in *. apply NoDup_app in Hst as (Hp & Hpl & Hl).
  rewrite <- (assoc_L (++)). apply NoDup_app. split; [done|].
  split; [|apply NoDup_app; split; [by apply uniqueNew_ids_unique|split; [|done]]].
  - intros x Hx [Hu|Hxl]%elem_of_app; [|by eapply Hpl].
    apply list_elem_of_fmap in Hu as (q & -> & Hq).
    by apply uniqueNew_spec in Hq as (_ & ? & _).
  - intros x (q & -> & Hq)%list_elem_of_fmap.
    by apply uniqueNew_spec in Hq as (_ & _ & ?).
Qed.

End buffer_manager.

Section session.

Import App.

Lemma fetchRecommendations_of_raw w context startIndex raw :
  fetchFromArxiv (World.browser w) startIndex context = Normal raw →
  ∃ newPapers,
    fetchRecommendations w context startIndex = Normal newPapers
    ∧ length newPapers = length raw.
Proof.
  intros Hraw. unfold fetchRecommendations. rewrite Hraw. simpl.
  destruct (enrich_aligned (World.gemini w) raw) as (out & Hout & Hall).
  exists out. split; [done|]. symmetry. by eapply Forall2_length.
Qed.

Lemma fetch_done_unfold st i w call :
  pending st !! i = Some call →
  step (FetchDone i w) st
  = Some (rerender st
            (loadMorePapers_resume call
               (fetchRecommendations w (Pending.context call)
                  (Pending.startIndex call))
               (drop_pending i st)) false).
Proof. intros Hi. simpl. by rewrite Hi. Qed.

End session.

(** C2: when a fetch cycle's raw batch is not empty, the cursor after the
    cycle is the cursor before it (the start index the request was sent
    with) plus the number of raw records, whatever the filter lets
    through; from 0, a raw batch of 5 gives 5. *)
Theorem cursor_advances_by_raw_count st i w call raw st' :
  App.reachable st →
  App.pending st !! i = Some call →
  fetchFromArxiv (World.browser w) (Pending.startIndex call) (Pending.context call)
  = Normal raw →
  raw ≠ [] →
  App.step (App.FetchDone i w) st = Some st' →
  App.nextStartIndexRef st' = App.nextStartIndexRef st + length raw
  ∧ App.nextStartIndexRef st = Pending.startIndex call
  ∧ (App.nextStartIndexRef st = 0 → length raw = 5 →
       App.nextStartIndexRef st' = 5).
Proof.
  intros Hr Hi Hraw Hne Hstep.
  destruct (guarded_pending _ _ _ (reachable_guarded _ Hr) Hi) as (_ & _ & _ & Hc).
  assert (App.nextStartIndexRef st' = App.nextStartIndexRef st + length raw) as H.
  { rewrite (fetch_done_unfold _ _ _ _ Hi) in Hstep. injection Hstep as <-.
    destruct (rerender_papers st
      (App.loadMorePapers_resume call
         (fetchRecommendations w (Pending.context call) (Pending.startIndex call))
         (App.drop_pending i st)) false) as (_ & _ & ->).
    destruct (fetchRecommendations_of_raw _ _ _ _ Hraw) as (out & -> & Hlen).
    unfold App.loadMorePapers_resume. rewrite Hlen.
    destruct raw; [done|]. by simpl. }
  split; [done|]. split; [done|]. intros H0 H5. by rewrite H, H0, H5.
Qed.

Lemma cursor_advances_by_raw_count_witness :
  ∃ call st',
    App.pending App.startup !! 0 = Some call
    ∧ App.step (App.FetchDone 0 (world_serving five_ids)) App.startup = Some st'
    ∧ Pending.startIndex call = 0
    ∧ App.nextStartIndexRef st' = 5.
Proof.
  assert (∃ call raw st',
            App.pending App.startup !! 0 = Some call
            ∧ fetchFromArxiv (World.browser (world_serving five_ids))
                (Pending.startIndex call) (Pending.context call) = Normal raw
            ∧ length raw = 5
            ∧ App.step (App.FetchDone 0 (world_serving five_ids)) App.startup
              = Some st')
    as (call & raw & st' & Hcall & Hraw & Hlen & Hstep).
  { eexists _, _, _. split; [compute_refl|]. split; [compute_refl|].
    split; compute_refl. }
  exists call, st'. split; [exact Hcall|]. split; [exact Hstep|].
  destruct (cursor_advances_by_raw_count App.startup 0 (world_serving five_ids)
              call raw st') as (_ & Hsame & H);
    [by exists []|exact Hcall|exact Hraw| |exact Hstep|].
  - intros ->. discriminate Hlen.
  - split; [symmetry; exact Hsame|]. apply H; [reflexivity|exact Hlen].
Defined.

(** C4: at most one fetch and enrich pipeline is outstanding.  A fetch
    request made while the guard flag is set changes nothing (from the
    prefetch effect or from the reload button); a request made while it is
    clear sets the flag in the step that suspends at the [await]; every way
    the suspended activation ends clears it; and in every state of a
    session there is at most one suspended activation, exactly one when the
    flag is set. *)
Theorem single_fetch_in_flight :
  (∀ st currentLiked isInitialLoad,
     App.fetchingRef st = true →
     App.loadMorePapers currentLiked isInitialLoad st = st)
  ∧ (∀ st, App.fetchingRef st = true →
       App.prefetch_effect st = st
       ∧ ∀ st', App.step App.Reload st = Some st' → st' = st)
  ∧ (∀ st currentLiked isInitialLoad,
       App.fetchingRef st = false →
       App.fetchingRef (App.loadMorePapers currentLiked isInitialLoad st) = true
       ∧ length (App.pending (App.loadMorePapers currentLiked isInitialLoad st))
         = S (length (App.pending st)))
  ∧ (∀ call result st,
       App.fetchingRef (App.loadMorePapers_resume call result st) = false)
  ∧ (∀ st, App.reachable st →
       length (App.pending st) ≤ 1
       ∧ (App.fetchingRef st = true ↔ length (App.pending st) = 1)).
Proof.
  split; [intros; by apply loadMorePapers_noop|]. split.
  { intros st Hf. split; [by apply prefetch_effect_noop|].
    intros st'. simpl. destruct (App.papers st); [|done].
    rewrite loadMorePapers_noop by done. unfold App.rerender.
    rewrite Nat.eqb_refl. by intros [= <-]. }
  split.
  { intros st cl init Hf. unfold App.loadMorePapers. rewrite Hf. simpl.
    split; [done|]. rewrite length_app. simpl. lia. }
  split.
  { intros call result st. unfold App.loadMorePapers_resume.
    by repeat case_match. }
  intros st Hg%reachable_guarded. unfold guarded in Hg.
  destruct (App.fetchingRef st).
  - destruct Hg as (call & -> & _). simpl. split; [lia|done].
  - rewrite Hg. simpl. split; [lia|]. split; [done|lia].
Qed.

(** In the end-to-end scenario, after the swipe that takes the buffer from
    three to two, exactly one fetch is in flight and asking again changes
    nothing. *)
Lemma single_fetch_in_flight_witness :
  ∃ st, App.run (to_three_unseen ++ [App.Swipe LEFT]) App.startup = Some st
        ∧ length (App.papers st) = 2
        ∧ length (App.pending st) = 1
        ∧ App.loadMorePapers (App.likedPapers st) true st = st
        ∧ App.prefetch_effect st = st.
Proof.
  assert (∃ st, App.run (to_three_unseen ++ [App.Swipe LEFT]) App.startup = Some st
                ∧ length (App.papers st) = 2
                ∧ App.fetchingRef st = true) as (st & Hrun & Hp & Hf).
  { eexists. split; [compute_refl|]. split; compute_refl. }
  destruct single_fetch_in_flight as (Hnoop & Heffect & _ & _ & Hone).
  exists st. split; [exact Hrun|]. split; [exact Hp|].
  split; [exact (proj1 (proj2 (Hone st (ex_intro _ _ Hrun))) Hf)|].
  split; [exact (Hnoop st _ _ Hf)|exact (proj1 (Heffect st Hf))].
Defined.

(** What the code does when its own filter (against the buffer as it
    stands and the liked list as it was when the fetch started) lets nothing
    through: the buffer is what it was, and the cycle ends idle, with the
    guard flag clear and no activation suspended. *)
Lemma no_refetch_after_duplicates st i w call newPapers st' :
  App.reachable st →
  App.pending st !! i = Some call →
  fetchRecommendations w (Pending.context call) (Pending.startIndex call)
  = Normal newPapers →
  App.uniqueNew (App.papers st) (Pending.currentLiked call) newPapers = [] →
  App.step (App.FetchDone i w) st = Some st' →
  App.papers st' = App.papers st
  ∧ App.fetchingRef st' = false
  ∧ App.pending st' = []
  ∧ ∀ j w', App.step (App.FetchDone j w') st' = None.
Proof.
  intros Hr Hi Hres Hnone Hstep.
  pose proof (reachable_guarded _ Hr) as Hg.
  destruct (resume_idle call (Normal newPapers) st i Hg Hi) as [Hf Hp].
  rewrite (fetch_done_unfold _ _ _ _ Hi), Hres in Hstep. injection Hstep as <-.
  set (after := App.loadMorePapers_resume call (Normal newPapers)
                  (App.drop_pending i st)) in *.
  assert (App.papers after = App.papers st) as Hsame.
  { unfold after, App.loadMorePapers_resume. simpl.
    destruct (0 <? length newPapers); [|done]. simpl.
    by rewrite Hnone, app_nil_r. }
  assert (App.rerender st after false = after) as ->.
  { unfold App.rerender. by rewrite Hsame, Nat.eqb_refl. }
  split; [done|]. split; [done|]. split; [done|].
  intros j w'. simpl. by rewrite Hp.
Qed.

(** The end-to-end scenario: the buffer is at two with one fetch in
    flight; the batch holds five papers that are all in the liked list. *)
Lemma no_refetch_after_duplicates_witness :
  ∃ st st',
    App.run (to_three_unseen ++ [App.Swipe LEFT]) App.startup = Some st
    ∧ App.step (App.FetchDone 0 (world_serving five_ids)) st = Some st'
    ∧ length (App.papers st) = 2
    ∧ App.papers st' = App.papers st
    ∧ App.fetchingRef st' = false
    ∧ App.pending st' = [].
Proof.
  assert (∃ st call newPapers st',
            App.run (to_three_unseen ++ [App.Swipe LEFT]) App.startup = Some st
            ∧ length (App.papers st) = 2
            ∧ App.pending st !! 0 = Some call
            ∧ fetchRecommendations (world_serving five_ids)
                (Pending.context call) (Pending.startIndex call)
              = Normal newPapers
            ∧ length newPapers = 5
            ∧ App.uniqueNew (App.papers st) (Pending.currentLiked call) newPapers
              = []
            ∧ App.step (App.FetchDone 0 (world_serving five_ids)) st = Some st')
    as (st & call & newPapers & st' & Hrun & Hlen & Hcall & Hres & _ & Hnone & Hstep).
  { eexists _, _, _, _. split; [compute_refl|]. split; [compute_refl|].
    split; [compute_refl|]. split; [compute_refl|]. split; [compute_refl|].
    split; compute_refl. }
  exists st, st'. split; [exact Hrun|]. split; [exact Hstep|].
  split; [exact Hlen|].
  destruct (no_refetch_after_duplicates st 0 (world_serving five_ids) call
              newPapers st' (ex_intro _ _ Hrun) Hcall Hres Hnone Hstep)
    as (Hp & Hf & Hq & _).
  split; [exact Hp|]. split; [exact Hf|exact Hq].
Defined.

(** The same with the premise said of the batch: when no card was liked
    since the fetch started, a batch whose every record is in the buffer or
    in the liked list leaves the buffer as it was and starts no fetch. *)
Lemma no_refetch_when_snapshot_current st i w call newPapers st' :
  App.reachable st →
  App.pending st !! i = Some call →
  Pending.currentLiked call = App.likedPapers st →
  fetchRecommendations w (Pending.context call) (Pending.startIndex call)
  = Normal newPapers →
  Forall (λ p, Paper.id p ∈ Paper.id <$> App.papers st
               ∨ Paper.id p ∈ Paper.id <$> App.likedPapers st) newPapers →
  App.step (App.FetchDone i w) st = Some st' →
  App.papers st' = App.papers st
  ∧ App.fetchingRef st' = false
  ∧ App.pending st' = [].
Proof.
  intros Hr Hi Hsnap Hres Hall Hstep.
  destruct (no_refetch_after_duplicates st i w call newPapers st' Hr Hi Hres)
    as (Hp & Hf & Hq & _); [|done|done].
  rewrite Hsnap. clear Hres Hstep.
  induction Hall as [|p l Hp _ IH]; [done|].
  unfold App.uniqueNew. rewrite filter_cons_False; [exact IH|].
  rewrite !elem_of_list_to_set. tauto.
Qed.

(** C6 (the code breaks it): a batch made only of a paper that is in the
    liked list must leave the buffer as it is and start no fetch.  When
    that paper was liked while the fetch was in flight, the filter compares
    against the liked list the fetch was started with, lets the paper
    through, the buffer grows from two to three, and the render that
    follows starts a new fetch by itself. *)
Theorem liked_batch_grows_buffer :
  ∃ st call newPapers st',
    App.run liked_in_flight App.startup = Some st
    ∧ Paper.id <$> App.papers st = ["2301.00002"; "2301.00003"]
    ∧ Paper.id <$> App.likedPapers st = ["2301.00001"]
    ∧ App.pending st !! 0 = Some call
    ∧ fetchRecommendations liked_batch (Pending.context call)
        (Pending.startIndex call) = Normal newPapers
    ∧ Paper.id <$> newPapers = ["2301.00001"]
    ∧ Forall (λ p, Paper.id p ∈ Paper.id <$> App.likedPapers st) newPapers
    ∧ App.step (App.FetchDone 0 liked_batch) st = Some st'
    ∧ Paper.id <$> App.papers st'
      = ["2301.00002"; "2301.00003"; "2301.00001"]
    ∧ App.fetchingRef st' = true
    ∧ length (App.pending st') = 1.
Proof.
  eexists _, _, _, _.
  split; [compute_refl|]. split; [compute_refl|]. split; [compute_refl|].
  split; [compute_refl|]. split; [compute_refl|]. split; [compute_refl|].
  split; [decide_by_compute|]. split; [compute_refl|].
  split; [compute_refl|]. split; compute_refl.
Qed.

Section swipes.

Import App.

Lemma step_swipe st direction currentPaper remainingPapers :
  papers st = currentPaper :: remainingPapers →
  ∃ st', step (Swipe direction) st = Some st'
         ∧ papers st' = remainingPapers
         ∧ likedPapers st'
           = match direction with
             | LEFT => likedPapers st
             | RIGHT => likedPapers st ++ [currentPaper]
             end.
Proof.
  intros Hp. simpl. unfold handleSwipe. rewrite Hp. simpl.
  eexists. split; [done|].
  match goal with |- papers (rerender ?a ?b ?c) = _ ∧ _ =>
    destruct (rerender_papers a b c) as (-> & -> & _) end.
  by destruct direction.
Qed.

Lemma step_liked e st st' :
  step e st = Some st' →
  likedPapers st'
  = likedPapers st ++
    match e, papers st with
    | Swipe RIGHT, currentPaper :: _ => [currentPaper]
    | _, _ => []
    end.
Proof.
  destruct e as [d| |i w]; simpl.
  - unfold handleSwipe. destruct (papers st) as [|p rest] eqn:Hp; [done|].
    simpl. intros [= <-].
    match goal with |- likedPapers (rerender ?a ?b ?c) = _ =>
      destruct (rerender_papers a b c) as (_ & -> & _) end.
    destruct d; simpl; [by rewrite app_nil_r|done].
  - destruct (papers st); [|done]. intros [= <-].
    destruct (rerender_papers st (loadMorePapers (likedPapers st) true st) false)
      as (_ & -> & _).
    destruct (loadMorePapers_papers (likedPapers st) true st) as (_ & -> & _).
    by rewrite app_nil_r.
  - destruct (pending st !! i) as [call|]; [|done]. simpl. intros [= <-].
    match goal with |- likedPapers (rerender ?a ?b ?c) = _ =>
      destruct (rerender_papers a b c) as (_ & -> & _) end.
    unfold loadMorePapers_resume. simpl.
    by repeat case_match; rewrite app_nil_r.
Qed.

Lemma run_liked events : ∀ st st',
  run events st = Some st' →
  likedPapers st' = likedPapers st ++ right_swiped events st.
Proof.
  induction events as [|e events IH]; intros st st'; simpl.
  - intros [= <-]. by rewrite app_nil_r.
  - destruct (step e st) as [st1|] eqn:He; [|done]. simpl. intros Hrun.
    rewrite (IH _ _ Hrun), (step_liked _ _ _ He). by rewrite <- (assoc_L (++)).
Qed.

End swipes.

(** C9: on a non-empty buffer a swipe removes exactly the front record;
    a left swipe leaves the liked collection as it is and a right swipe
    puts that record, as it is, at its end; so along any run the liked
    collection grows by the records swiped right, in the order of the
    swipes. *)
Theorem swipe_pops_front :
  (∀ st direction currentPaper remainingPapers,
     App.papers st = currentPaper :: remainingPapers →
     ∃ st', App.step (App.Swipe direction) st = Some st'
            ∧ App.papers st' = remainingPapers
            ∧ App.likedPapers st'
              = match direction with
                | LEFT => App.likedPapers st
                | RIGHT => App.likedPapers st ++ [currentPaper]
                end)
  ∧ (∀ events st st',
       App.run events st = Some st' →
       App.likedPapers st' = App.likedPapers st ++ right_swiped events st).
Proof. split; [apply step_swipe|apply run_liked]. Qed.

Lemma swipe_pops_front_witness :
  ∃ st, App.run to_three_unseen App.startup = Some st
        ∧ Paper.id <$> App.likedPapers st = five_ids
        ∧ App.likedPapers st
          = App.likedPapers App.startup ++ right_swiped to_three_unseen App.startup.
Proof.
  assert (∃ st, App.run to_three_unseen App.startup = Some st
                ∧ Paper.id <$> App.likedPapers st = five_ids)
    as (st & Hrun & Hids).
  { eexists. split; compute_refl. }
  exists st. split; [exact Hrun|]. split; [exact Hids|].
  destruct swipe_pops_front as [_ Hliked]. exact (Hliked _ _ _ Hrun).
Defined.

(** C1 (the code breaks it): a paper liked while a fetch is in flight is
    not in the copy of the liked list that fetch was started with, so when
    the batch brings it again the filter lets it through: the identifier is
    then both in the buffer and in the liked collection. *)
Theorem liked_paper_fetched_again :
  ∃ st, App.run like_during_fetch App.startup = Some st
        ∧ Paper.id <$> App.papers st
          = ["2301.00002"; "2301.00003"; "2301.00001"; "2301.00004"]
        ∧ Paper.id <$> App.likedPapers st = ["2301.00001"]
        ∧ ¬ NoDup (App.session_ids st).
Proof.
  eexists. split; [by vm_compute|]. split; [by vm_compute|].
  split; [by vm_compute|].
  unfold App.session_ids. rewrite fmap_app.
  intros H%NoDup_app. destruct H as (_ & H & _).
  apply (H "2301.00001"); [by vm_compute; set_solver|by vm_compute; set_solver].
Qed.


(** * Further properties of the code *)

(** ** Strings *)

Section strings.

Lemma append_cons a s t : String a s +:+ t = String a (s +:+ t).
Proof. done. Qed.

Lemma chars_app s1 s2 : chars (s1 +:+ s2) = chars s1 ++ chars s2.
Proof.
  induction s1 as [|a s1 IH]; [done|]. rewrite append_cons. simpl. by f_equal.
Qed.

Lemma chars_rev_app s1 s2 :
  chars (String.rev_app s1 s2) = reverse (chars s1) ++ chars s2.
Proof.
  revert s2. induction s1 as [|a s1 IH]; intros s2; [done|].
  simpl. rewrite IH, reverse_cons, <- (assoc_L (++)). done.
Qed.

Lemma chars_rev s : chars (String.rev s) = reverse (chars s).
Proof. unfold String.rev. by rewrite chars_rev_app, app_nil_r. Qed.

Lemma chars_inj s1 s2 : chars s1 = chars s2 → s1 = s2.
Proof.
  intros H. rewrite <- (String.string_of_list_ascii_of_string s1),
    <- (String.string_of_list_ascii_of_string s2). unfold chars in H.
  by rewrite H.
Qed.

Lemma chars_length s : length (chars s) = String.length s.
Proof. induction s as [|a s IH]; [done|]. simpl. by f_equal. Qed.

Lemma append_cancel_r s1 s2 t : s1 +:+ t = s2 +:+ t → s1 = s2.
Proof.
  intros H. apply chars_inj. apply (f_equal chars) in H.
  rewrite !chars_app in H. by apply (inj (λ l, l ++ chars t)) in H.
Qed.

End strings.

(** ** The keyword extractor *)

Section keywords_more.

Lemma lower_char_not_upper c : between 65 90 (lower_char c) = false.
Proof. by destruct c as [[] [] [] [] [] [] [] []]. Qed.

Lemma lower_char_idemp c : lower_char (lower_char c) = lower_char c.
Proof. by destruct c as [[] [] [] [] [] [] [] []]. Qed.

Lemma toLowerCase_chars s : chars (toLowerCase s) = lower_char <$> chars s.
Proof. induction s as [|a s IH]; [done|]. simpl. by f_equal. Qed.

Lemma toLowerCase_app s1 s2 :
  toLowerCase (s1 +:+ s2) = toLowerCase s1 +:+ toLowerCase s2.
Proof.
  induction s1 as [|a s1 IH]; [done|]. rewrite append_cons. simpl.
  by rewrite IH.
Qed.

Lemma toLowerCase_idemp s : toLowerCase (toLowerCase s) = toLowerCase s.
Proof.
  induction s as [|a s IH]; [done|]. simpl. by rewrite lower_char_idemp, IH.
Qed.

Lemma toLowerCase_join l :
  toLowerCase (join " " l) = join " " (toLowerCase <$> l).
Proof.
  induction l as [|x l IH]; [done|]. destruct l as [|y l]; [done|].
  change (join " " (x :: y :: l)) with (x +:+ " " +:+ join " " (y :: l)).
  rewrite !toLowerCase_app, IH. done.
Qed.

(** Every character of a piece is a character read that is no separator. *)
Lemma split_go_chars (P : ascii → Prop) s : ∀ insep cur,
  Forall P (chars cur) →
  Forall (λ c, is_separator c = false → P c) (chars s) →
  Forall (λ w, Forall P (chars w)) (split_go insep cur s).
Proof.
  induction s as [|c s IH]; intros insep cur Hcur Hs; simpl.
  - constructor; [|done]. rewrite chars_rev. by apply Forall_reverse.
  - apply Forall_cons in Hs as [Hc Hs].
    destruct (is_separator c) eqn:Hsep.
    + destruct insep; [by apply IH|].
      constructor; [|by apply IH].
      rewrite chars_rev. by apply Forall_reverse.
    + apply IH; [|done]. constructor; [by apply Hc|done].
Qed.

Lemma lower_word_chars s :
  Forall (λ c, is_separator c = false → is_lower_word c = true)
    (chars (toLowerCase s)).
Proof.
  rewrite toLowerCase_chars. apply Forall_fmap, Forall_forall.
  intros c _. simpl. rewrite separator_iff_not_word. unfold is_lower_word.
  rewrite lower_char_not_upper. by destruct (is_word_char (lower_char c)).
Qed.

End keywords_more.

(** X1: whatever the titles, the extractor keeps at most three keywords,
    no keyword twice, each longer than four characters and made only of
    lower-case letters, digits and underscores. *)
Theorem uniqueKeywords_shape titles :
  length (uniqueKeywords titles) ≤ 3
  ∧ NoDup (uniqueKeywords titles)
  ∧ Forall (λ k, 4 < String.length k
                 ∧ Forall (λ c, is_lower_word c = true) (chars k))
      (uniqueKeywords titles).
Proof.
  unfold uniqueKeywords. cbv zeta. rewrite set_elements_dedup.
  set (words := split_nonword _).
  assert (NoDup (KeywordSpec.dedup_first
                   (filter (λ w, is_keyword w = true) words))) as Hnd.
  { unfold KeywordSpec.dedup_first. rewrite reverse_Permutation.
    apply NoDup_remove_dups. }
  split; [rewrite length_take; lia|].
  split; [by eapply sublist_NoDup; [|apply sublist_take]|].
  apply Forall_forall. intros k Hk%subseteq_take.
  unfold KeywordSpec.dedup_first in Hk.
  rewrite elem_of_reverse, elem_of_remove_dups, elem_of_reverse in Hk.
  apply list_elem_of_filter in Hk as [Hkw Hk].
  split.
  - apply is_keyword_qualifies in Hkw. by destruct Hkw.
  - clear Hkw. revert k Hk. apply Forall_forall. unfold words, split_nonword.
    apply split_go_chars; [constructor|apply lower_word_chars].
Qed.

(** X2: the stop-word list never rejects a word: every stop word has at
    most four characters, so the length test alone decides. *)
Theorem stop_words_never_decide w :
  is_keyword w = (4 <? String.length w).
Proof.
  unfold is_keyword. destruct (4 <? String.length w) eqn:Hlen; [|done].
  apply Nat.ltb_lt in Hlen. simpl.
  rewrite bool_decide_eq_false_2; [done|].
  intros Hw%stopWords_short. lia.
Qed.

(** X3: only the three most recent titles count: older titles in front of
    them change nothing. *)
Theorem extractKeywords_last_three older recent :
  3 ≤ length recent →
  extractKeywords (older ++ recent) = extractKeywords recent.
Proof.
  intros Hlen.
  assert (uniqueKeywords (older ++ recent) = uniqueKeywords recent) as Hk.
  { unfold uniqueKeywords, slice_last. cbv zeta.
    rewrite length_app, drop_app_ge by lia.
    by replace (length older + length recent - 3 - length older)
      with (length recent - 3) by lia. }
  unfold extractKeywords. rewrite Hk.
  destruct recent as [|r recent]; [simpl in Hlen; lia|].
  by destruct older.
Qed.

Lemma extractKeywords_last_three_witness :
  extractKeywords (["Retrieval Augmented Generation"] ++ example_titles)
  = extractKeywords example_titles.
Proof. apply extractKeywords_last_three. simpl. lia. Defined.

(** X4: the case of the titles does not matter. *)
Theorem extractKeywords_ignores_case titles :
  extractKeywords (toLowerCase <$> titles) = extractKeywords titles.
Proof.
  assert (uniqueKeywords (toLowerCase <$> titles) = uniqueKeywords titles) as Hk.
  { unfold uniqueKeywords, slice_last. cbv zeta.
    rewrite length_fmap, <- fmap_drop, <- toLowerCase_join.
    by rewrite toLowerCase_idemp. }
  unfold extractKeywords. rewrite Hk. by destruct titles.
Qed.

(** ** The request *)

Section request.

Lemma extractKeywords_none titles :
  uniqueKeywords titles = [] → extractKeywords titles = "".
Proof. unfold extractKeywords. intros ->. by destruct titles. Qed.

End request.

(** X5: when the user has likes, the coin picks relevance and no liked
    title yields a keyword, the query that goes out ends in [AND ()]: the
    keyword group is sent empty. *)
Theorem relevance_query_without_keywords b startIndex context :
  RecommendationContext.likedPapers context ≠ [] →
  Browser.random_above_half b = true →
  uniqueKeywords (RecommendationContext.likedPapers context) = [] →
  targetUrl b startIndex context
  = baseUrl +:+ "?search_query="
    +:+ encodeURIComponent (relevance_query "")
    +:+ "&start=" +:+ pretty (startIndex mod 50)
    +:+ "&max_results=5&sortBy=relevance&sortOrder=descending"
  ∧ encodeURIComponent (relevance_query "")
    = "(all%3A%22autonomous%20agent%22%20OR%20all%3A%22large%20language%20model%22)%20AND%20()".
Proof.
  intros Hlikes Hcoin Hnone. split; [|by vm_compute].
  unfold targetUrl, useRelevanceStrategy, targetUrl_of. rewrite Hcoin.
  destruct (RecommendationContext.likedPapers context) as [|t l] eqn:Hl;
    [done|].
  cbn [length Nat.ltb Nat.leb andb]. by rewrite (extractKeywords_none _ Hnone).
Qed.

Lemma relevance_query_without_keywords_witness :
  targetUrl
    {| Browser.fetch := λ _, Throw (TypeError "Failed to fetch");
       Browser.random_above_half := true;
       Browser.entries := λ _, Normal [] |}
    3
    {| RecommendationContext.likedPapers := ["On RL"; "A Tool for the Web"];
       RecommendationContext.dislikedPapers := [];
       RecommendationContext.currentFocus := "AI Agents" |}
  = baseUrl +:+ "?search_query="
    +:+ encodeURIComponent (relevance_query "")
    +:+ "&start=" +:+ pretty (3 mod 50)
    +:+ "&max_results=5&sortBy=relevance&sortOrder=descending".
Proof.
  refine (proj1 (relevance_query_without_keywords _ 3 _ _ _ _));
    [discriminate|reflexivity|compute_refl].
Defined.

(** X6: under the relevance strategy the start offset that is sent is the
    cursor modulo 50, a number below 50; so a cursor and the same cursor
    plus 50 ask for the same page, and two cursors ask for the same page
    exactly when they are equal modulo 50. *)
Theorem relevance_requests_repeat startIndex context :
  targetUrl_of true startIndex context
  = baseUrl +:+ "?search_query="
    +:+ encodeURIComponent
          (relevance_query
             (extractKeywords (RecommendationContext.likedPapers context)))
    +:+ "&start=" +:+ pretty (startIndex mod 50)
    +:+ "&max_results=5&sortBy=relevance&sortOrder=descending"
  ∧ startIndex mod 50 < 50
  ∧ targetUrl_of true (startIndex + 50) context
    = targetUrl_of true startIndex context
  ∧ ∀ startIndex',
      targetUrl_of true startIndex' context = targetUrl_of true startIndex context
      ↔ startIndex' mod 50 = startIndex mod 50.
Proof.
  split; [done|]. split; [by apply Nat.mod_upper_bound|].
  assert (∀ startIndex',
            targetUrl_of true startIndex' context
            = targetUrl_of true startIndex context
            ↔ startIndex' mod 50 = startIndex mod 50) as Hiff.
  { intros startIndex'. unfold targetUrl_of. split.
    - intros H. do 4 apply (inj (String.app _)) in H.
      apply append_cancel_r in H. by apply (inj pretty) in H.
    - by intros ->. }
  split; [|done]. apply Hiff.
  rewrite <- (Nat.Div0.mod_add startIndex 1 50). f_equal.
Qed.

(** X7: under the recency strategy different cursors ask for different
    pages. *)
Theorem recency_requests_differ startIndex startIndex' context :
  startIndex ≠ startIndex' →
  targetUrl_of false startIndex context ≠ targetUrl_of false startIndex' context.
Proof.
  unfold targetUrl_of. intros Hne H. apply Hne.
  do 4 apply (inj (String.app _)) in H.
  apply append_cancel_r in H. by apply (inj pretty) in H.
Qed.

Lemma recency_requests_differ_witness :
  0 ≠ 5 ∧ targetUrl_of false 0 no_likes ≠ targetUrl_of false 5 no_likes.
Proof.
  split; [discriminate|].
  apply (recency_requests_differ 0 5 no_likes). discriminate.
Defined.

(** ** Reading an entry *)

Section reading.

Lemma append_nil_r s : s +:+ "" = s.
Proof. apply chars_inj. by rewrite chars_app, app_nil_r. Qed.

Lemma append_assoc s1 s2 s3 : (s1 +:+ s2) +:+ s3 = s1 +:+ s2 +:+ s3.
Proof. apply chars_inj. by rewrite !chars_app, (assoc_L (++)). Qed.

Lemma rev_cons_append c cur t :
  String.rev (String c cur) +:+ t = String.rev cur +:+ String c t.
Proof.
  apply chars_inj. rewrite !chars_app, !chars_rev. simpl.
  by rewrite reverse_cons, <- (assoc_L (++)).
Qed.

Lemma startsWith_char v c s :
  startsWith (String v "") (String c s) = bool_decide (v = c).
Proof.
  unfold startsWith. simpl. destruct (ascii_dec v c) as [->|Hne].
  - rewrite bool_decide_eq_true_2 by done. by destruct s.
  - by rewrite bool_decide_eq_false_2.
Qed.

(** Up to the first separator character. *)
Lemma split_char_first v i t : ∀ cur,
  v ∉ chars i →
  split_on_go (String v "") 0 cur (i +:+ String v t)
  = (String.rev cur +:+ i) :: split_on_go (String v "") 0 "" t.
Proof.
  induction i as [|c i IH]; intros cur Hv.
  - change ("" +:+ String v t) with (String v t).
    cbn [split_on_go]. rewrite startsWith_char, bool_decide_eq_true_2 by done.
    by rewrite append_nil_r.
  - rewrite append_cons. cbn [split_on_go].
    simpl in Hv. apply not_elem_of_cons in Hv as [Hc Hi].
    rewrite startsWith_char, bool_decide_eq_false_2 by done.
    by rewrite IH, rev_cons_append.
Qed.

Lemma char_absent_includes v s :
  v ∉ chars s → includes (String v "") s = false.
Proof.
  induction s as [|c s IH]; [done|]. intros Hv. simpl in Hv.
  apply not_elem_of_cons in Hv as [Hc Hs].
  cbn [includes]. by rewrite startsWith_char, bool_decide_eq_false_2, IH.
Qed.

Lemma split_char_head v s : ∀ cur,
  ∃ piece rest,
    split_on_go (String v "") 0 cur s = (String.rev cur +:+ piece) :: rest
    ∧ v ∉ chars piece.
Proof.
  induction s as [|c s IH]; intros cur.
  - exists "", []. split; [by rewrite append_nil_r|]. apply not_elem_of_nil.
  - cbn [split_on_go]. rewrite startsWith_char.
    destruct (decide (v = c)) as [->|Hne].
    + rewrite bool_decide_eq_true_2 by done. eexists "", _.
      split; [by rewrite append_nil_r|]. apply not_elem_of_nil.
    + rewrite bool_decide_eq_false_2 by done.
      destruct (IH (String c cur)) as (piece & rest & -> & Hp).
      exists (String c piece), rest. split; [by rewrite rev_cons_append|].
      simpl. by apply not_elem_of_cons.
Qed.

Lemma split_char_head_clean v s :
  v ∉ chars (default "" (head (split_on (String v "") s))).
Proof.
  unfold split_on. by destruct (split_char_head v s "") as (piece & rest & -> & Hp).
Qed.

Lemma split_char_head_of v i t :
  v ∉ chars i →
  default "" (head (split_on (String v "") (i +:+ String v t))) = i.
Proof. intros Hv. unfold split_on. by rewrite split_char_first. Qed.

(** A text in which the separator does not occur is one piece. *)
Lemma split_on_absent sep s : ∀ cur,
  includes sep s = false →
  split_on_go sep 0 cur s = [String.rev cur +:+ s].
Proof.
  induction s as [|c s IH]; intros cur H.
  - by rewrite append_nil_r.
  - cbn [includes] in H. apply orb_false_iff in H as [Hhere Hlater].
    cbn [split_on_go]. rewrite Hhere, IH by done.
    by rewrite rev_cons_append.
Qed.

Lemma replace_newlines_clean s : line_feed ∉ chars (replace_newlines s).
Proof.
  induction s as [|c s IH]; [apply not_elem_of_nil|]. simpl.
  apply not_elem_of_cons. split; [|done].
  destruct (code c =? 10)%N eqn:Hc; [done|].
  intros <-. by vm_compute in Hc.
Qed.

Lemma trimStart_suffix s : chars (trimStart s) `suffix_of` chars s.
Proof.
  induction s as [|c s IH]; [done|]. simpl.
  destruct (is_space_char c); [by apply suffix_cons_r|done].
Qed.

Lemma trimStart_head s c :
  head (chars (trimStart s)) = Some c → is_space_char c = false.
Proof.
  induction s as [|a s IH]; [done|]. simpl.
  destruct (is_space_char a) eqn:Ha; [done|]. simpl. by intros [= <-].
Qed.

Lemma last_suffix {A} (l k : list A) x :
  l `suffix_of` k → last l = Some x → last k = Some x.
Proof.
  intros [pre ->] Hl. destruct l as [|a l]; [done|].
  by rewrite last_app, Hl.
Qed.

Lemma suffix_elem_of {A} (l k : list A) x : l `suffix_of` k → x ∈ l → x ∈ k.
Proof. intros [pre ->] Hx. apply elem_of_app. by right. Qed.

Lemma trim_chars_subseteq s : chars (trim s) ⊆ chars s.
Proof.
  unfold trim. rewrite chars_rev. intros c Hc. rewrite elem_of_reverse in Hc.
  apply (suffix_elem_of _ _ _ (trimStart_suffix _)) in Hc.
  rewrite chars_rev, elem_of_reverse in Hc.
  by apply (suffix_elem_of _ _ _ (trimStart_suffix _)) in Hc.
Qed.

Lemma trim_is_trimmed s : is_trimmed (trim s).
Proof.
  unfold is_trimmed, trim. rewrite chars_rev. split; intros c.
  - rewrite head_reverse. intros Hc.
    eapply last_suffix in Hc; [|apply trimStart_suffix].
    rewrite chars_rev, last_reverse in Hc. by eapply trimStart_head.
  - rewrite last_reverse. apply trimStart_head.
Qed.

Lemma empty_is_trimmed : is_trimmed "".
Proof. by split. Qed.

End reading.

Section identifiers.

Lemma append_nil_l s : "" +:+ s = s.
Proof. done. Qed.

Lemma startsWith_append p rest : startsWith p (p +:+ rest) = true.
Proof.
  unfold startsWith. induction p as [|c p IH]; [by destruct rest|].
  rewrite append_cons. simpl. by destruct (ascii_dec c c).
Qed.

Lemma split_on_go_skip sep p rest cur :
  split_on_go sep (String.length p) cur (p +:+ rest) = split_on_go sep 0 cur rest.
Proof. induction p as [|c p IH]; [done|]. by rewrite append_cons. Qed.

(** At an occurrence of the separator a piece ends. *)
Lemma split_on_go_here c sep rest cur :
  split_on_go (String c sep) 0 cur (String c sep +:+ rest)
  = String.rev cur :: split_on_go (String c sep) 0 "" rest.
Proof.
  rewrite append_cons. cbn [split_on_go].
  rewrite <- append_cons, startsWith_append. f_equal.
  cbn [String.length]. rewrite Nat.sub_1_r. cbn [Nat.pred].
  apply split_on_go_skip.
Qed.

(** Where the separator does not start, the character joins the piece. *)
Lemma split_on_go_step sep c s cur :
  startsWith sep (String c s) = false →
  split_on_go sep 0 cur (String c s) = split_on_go sep 0 (String c cur) s.
Proof. intros H. cbn [split_on_go]. by rewrite H. Qed.

Lemma split_abs scheme rest :
  scheme = "http" ∨ scheme = "https" →
  includes "/abs/" rest = false →
  split_on "/abs/" (scheme +:+ "://arxiv.org/abs/" +:+ rest)
  = [scheme +:+ "://arxiv.org"; rest].
Proof.
  intros Hscheme Habsent. unfold split_on.
  destruct Hscheme as [-> | ->];
    repeat (rewrite append_cons || rewrite append_nil_l);
    repeat (rewrite split_on_go_step by reflexivity);
    match goal with |- split_on_go _ 0 ?cur _ = ?pieces =>
      change (split_on_go "/abs/" 0 cur ("/abs/" +:+ rest) = pieces) end;
    by rewrite split_on_go_here, split_on_absent.
Qed.

Lemma id_of_entry idText entry :
  RawArxivPaper.id (paper_of_entry (entry_with_id idText entry))
  = default ""
      (head (split_on "v"
               match split_on "/abs/" idText with
               | _ :: second :: _ => second
               | _ => idText
               end)).
Proof. done. Qed.

Lemma id_after_abs scheme rest entry :
  scheme = "http" ∨ scheme = "https" →
  includes "/abs/" rest = false →
  RawArxivPaper.id
    (paper_of_entry (entry_with_id (scheme +:+ "://arxiv.org/abs/" +:+ rest) entry))
  = default "" (head (split_on "v" rest)).
Proof. intros Hscheme Habsent. by rewrite id_of_entry, split_abs. Qed.

End identifiers.

(** X9: the identifier read from an entry never holds the letter [v]
    (everything from the first [v] on is cut, version or not); and from the
    [id] text [http://arxiv.org/abs/] + identifier + [v] + version it is
    exactly the identifier, when that has no [v] in it and [/abs/] does not
    occur a second time. *)
Theorem entry_id_extraction :
  (∀ entry, "v"%char ∉ chars (RawArxivPaper.id (paper_of_entry entry)))
  ∧ (∀ entry i version,
       "v"%char ∉ chars i →
       includes "/abs/" (i +:+ "v" +:+ version) = false →
       RawArxivPaper.id
         (paper_of_entry
            (entry_with_id ("http://arxiv.org/abs/" +:+ i +:+ "v" +:+ version) entry))
       = i).
Proof.
  split.
  - intros entry. unfold paper_of_entry. cbv zeta.
    cbn [RawArxivPaper.id]. apply (split_char_head_clean "v").
  - intros entry i version Hv Habs.
    change "http://arxiv.org/abs/" with ("http" +:+ "://arxiv.org/abs/").
    rewrite append_assoc, (id_after_abs "http") by auto.
    by apply (split_char_head_of "v").
Qed.

Lemma entry_id_extraction_witness :
  RawArxivPaper.id
    (paper_of_entry
       (entry_with_id ("http://arxiv.org/abs/" +:+ "2301.00001" +:+ "v" +:+ "12")
          (sample_entry "")))
  = "2301.00001".
Proof.
  apply (proj2 entry_id_extraction); [decide_by_compute|compute_refl].
Defined.

(** X10: the link a card opens leads back to the same identifier: read as
    an entry's [id] text, the address [openPaper] builds gives the paper's
    identifier again (for an identifier without [v] and without [/abs/]). *)
Theorem openPaper_url_round_trip paper entry :
  "v"%char ∉ chars (Paper.id paper) →
  includes "/abs/" (Paper.id paper) = false →
  RawArxivPaper.id
    (paper_of_entry (entry_with_id (PaperCard.openPaper_url paper) entry))
  = Paper.id paper.
Proof.
  intros Hv Habs. unfold PaperCard.openPaper_url.
  change "https://arxiv.org/abs/" with ("https" +:+ "://arxiv.org/abs/").
  rewrite append_assoc, (id_after_abs "https") by auto.
  unfold split_on. by rewrite split_on_absent by by apply char_absent_includes.
Qed.

Lemma openPaper_url_round_trip_witness :
  RawArxivPaper.id
    (paper_of_entry
       (entry_with_id (PaperCard.openPaper_url (fallback_paper (sample_raw "2301.00001")))
          (sample_entry "")))
  = "2301.00001".
Proof.
  apply (openPaper_url_round_trip (fallback_paper (sample_raw "2301.00001")));
    [decide_by_compute|compute_refl].
Defined.

(** X11: the publication date read from an entry never holds a [T]; from
    a date, [T] and a time of day it is the date. *)
Theorem entry_published_date :
  (∀ entry, "T"%char ∉ chars (RawArxivPaper.published (paper_of_entry entry)))
  ∧ (∀ entry date time,
       "T"%char ∉ chars date →
       RawArxivPaper.published
         (paper_of_entry (entry_with_published (date +:+ "T" +:+ time) entry))
       = date).
Proof.
  split.
  - intros entry. unfold paper_of_entry. cbv zeta. cbn [RawArxivPaper.published].
    destruct (Entry.published entry) as [text|]; simpl; [|apply not_elem_of_nil].
    apply (split_char_head_clean "T").
  - intros entry date time Hd. unfold paper_of_entry, entry_with_published.
    cbv zeta. cbn [RawArxivPaper.published Entry.published]. simpl.
    by apply (split_char_head_of "T").
Qed.

Lemma entry_published_date_witness :
  RawArxivPaper.published
    (paper_of_entry
       (entry_with_published ("2023-01-02" +:+ "T" +:+ "10:00:00Z") (sample_entry "")))
  = "2023-01-02".
Proof. apply (proj2 entry_published_date). decide_by_compute. Defined.

(** X12: the title and the abstract read from an entry hold no line feed
    and have no white space at either end. *)
Theorem entry_text_is_clean entry :
  (line_feed ∉ chars (RawArxivPaper.title (paper_of_entry entry)))
  ∧ is_trimmed (RawArxivPaper.title (paper_of_entry entry))
  ∧ (line_feed ∉ chars (RawArxivPaper.summary (paper_of_entry entry)))
  ∧ is_trimmed (RawArxivPaper.summary (paper_of_entry entry)).
Proof.
  assert (∀ text : option string,
            let cleaned := or_empty ((λ t, trim (replace_newlines t)) <$> text) in
            (line_feed ∉ chars cleaned) ∧ is_trimmed cleaned) as H.
  { intros [t|]; simpl; [|split; [apply not_elem_of_nil|apply empty_is_trimmed]].
    split; [|apply trim_is_trimmed].
    intros Hin%trim_chars_subseteq. by apply replace_newlines_clean in Hin. }
  unfold paper_of_entry. cbv zeta.
  cbn [RawArxivPaper.title RawArxivPaper.summary].
  destruct (H (Entry.title entry)) as [? ?], (H (Entry.summary entry)) as [? ?].
  done.
Qed.

(** ** Merging the response *)

Section merging.

Lemma find_pred_entry i e :
  e ≠ JNull →
  (let* v := get_prop e "id" in Normal (strict_eq_str v i))
  = Normal (is_entry_for i e).
Proof. by destruct e. Qed.

Lemma array_find_without_null i items :
  JNull ∉ items →
  array_find (λ e, let* v := get_prop e "id" in Normal (strict_eq_str v i)) items
  = Normal (first_entry_for i items).
Proof.
  unfold first_entry_for.
  induction items as [|e items IH]; [done|]. intros [He Hitems]%not_elem_of_cons.
  cbn [array_find List.find]. rewrite find_pred_entry by done.
  destruct (is_entry_for i e); [done|by apply IH].
Qed.

Lemma array_find_null i items :
  JNull ∈ items →
  existsb (is_entry_for i) items = false →
  ∃ e, array_find
         (λ e, let* v := get_prop e "id" in Normal (strict_eq_str v i)) items
       = Throw e.
Proof.
  induction items as [|x items IH]; [by intros ?%elem_of_nil|].
  intros Hnull Hno. cbn [existsb] in Hno.
  apply orb_false_iff in Hno as [Hx Hno]. cbn [array_find].
  assert (x = JNull ∨ x ≠ JNull) as [->|Hne]
    by (destruct x; first [by left|by right]); [by eexists|].
  rewrite find_pred_entry, Hx by done. apply IH; [|done].
  by apply elem_of_cons in Hnull as [?|?].
Qed.

Lemma first_entry_is_object i items e :
  first_entry_for i items = Some e → ∃ members, e = JObj members.
Proof.
  intros [_ He]%find_some. destruct e; try done. by eexists.
Qed.

Lemma merge_paper_without_null items raw :
  JNull ∉ items →
  ∃ p, merge_paper (JArr items) raw = Normal p
       ∧ frame p = raw_frame raw
       ∧ annotation p
         = merged_annotation raw (first_entry_for (RawArxivPaper.id raw) items).
Proof.
  intros Hnull. unfold merge_paper. cbn [call_find].
  rewrite array_find_without_null by done. cbn [bind].
  destruct (first_entry_for (RawArxivPaper.id raw) items) as [e|] eqn:He.
  - apply first_entry_is_object in He as [members ->]. by eexists.
  - by eexists.
Qed.

Lemma array_map_all {A B} (f : A → completion B) (g : A → B) l :
  (∀ a, a ∈ l → f a = Normal (g a)) → array_map f l = Normal (g <$> l).
Proof.
  induction l as [|a l IH]; [done|]. intros H. cbn [array_map].
  rewrite (H a) by left. cbn [bind]. rewrite IH; [done|].
  intros b Hb. apply H. by right.
Qed.

Lemma array_map_throws {A B} (f : A → completion B) l a e :
  a ∈ l → f a = Throw e → ∃ e', array_map f l = Throw e'.
Proof.
  induction l as [|x l IH]; [by intros ?%elem_of_nil|].
  intros Ha Hf. cbn [array_map].
  destruct (f x) as [b|ex] eqn:Hx; [|by eexists]. cbn [bind].
  apply elem_of_cons in Ha as [->|Ha]; [congruence|].
  destruct (IH Ha Hf) as [e' ->]. by eexists.
Qed.

Lemma enrich_with_data g rawPapers data :
  enrichedData_of g = Normal data →
  enrichPapersWithGemini g rawPapers
  = match rawPapers with
    | [] => Normal []
    | _ =>
        match array_map (merge_paper data) rawPapers with
        | Normal mergedPapers => Normal mergedPapers
        | Throw _ => Normal (fallback_paper <$> rawPapers)
        end
    end.
Proof.
  unfold enrichedData_of, enrichPapersWithGemini, enrich_try.
  destruct (Gemini.generateContent g) as [text|]; [|done].
  cbn [bind]. by intros [= <-].
Qed.

End merging.

(** X13: when the response parses to an array without [null] in it, every
    record is merged and none falls back: a record takes the first entry
    whose [id] is its identifier, and from that entry each field that is
    truthy; a record without entry, and every field that is missing, empty
    or [null], gets its placeholder. *)
Theorem enrich_merges_first_entry g rawPapers items :
  enrichedData_of g = Normal (JArr items) →
  JNull ∉ items →
  ∃ out,
    enrichPapersWithGemini g rawPapers = Normal out
    ∧ annotation <$> out
      = (λ raw, merged_annotation raw
                  (first_entry_for (RawArxivPaper.id raw) items)) <$> rawPapers.
Proof.
  intros Hdata Hnull. rewrite (enrich_with_data _ _ _ Hdata).
  assert (∃ out, array_map (merge_paper (JArr items)) rawPapers = Normal out
                 ∧ annotation <$> out
                   = (λ raw, merged_annotation raw
                        (first_entry_for (RawArxivPaper.id raw) items))
                     <$> rawPapers) as (out & Hout & Hann).
  { induction rawPapers as [|raw l (out & Hout & Hann)]; [by eexists|].
    destruct (merge_paper_without_null items raw Hnull) as (p & Hp & _ & Ha).
    exists (p :: out). cbn [array_map]. rewrite Hp, Hout. split; [done|].
    by rewrite !fmap_cons, Ha, Hann. }
  exists out. rewrite Hout. by destruct rawPapers.
Qed.

Lemma enrich_merges_first_entry_witness :
  ∃ out,
    enrichPapersWithGemini
      (gemini_answers
         (JArr [JObj [("id", JStr "2301.00002"); ("abstract_zh", JStr "");
                      ("tags", JArr [JStr "LLM"])];
                sample_annotation "2301.00002"]))
      (sample_raw <$> ["2301.00001"; "2301.00002"]) = Normal out
    ∧ annotation <$> out
      = [unannotated (sample_raw "2301.00001");
         (JStr translating_placeholder, JStr "Paper 2301.00002", JArr [JStr "LLM"])].
Proof.
  destruct (enrich_merges_first_entry
              (gemini_answers
                 (JArr [JObj [("id", JStr "2301.00002"); ("abstract_zh", JStr "");
                              ("tags", JArr [JStr "LLM"])];
                        sample_annotation "2301.00002"]))
              (sample_raw <$> ["2301.00001"; "2301.00002"]) _ eq_refl)
    as (out & Hout & Hann); [absent_from_list|].
  exists out. split; [exact Hout|]. rewrite Hann. compute_refl.
Defined.

(** X14: when the response parses to something that is not an array (an
    object, a string, a number, [null]), every record of the batch gets
    the fixed fallback annotation. *)
Theorem enrich_non_array_falls_back g rawPapers data :
  enrichedData_of g = Normal data →
  (∀ items, data ≠ JArr items) →
  enrichPapersWithGemini g rawPapers = Normal (fallback_paper <$> rawPapers).
Proof.
  intros Hdata Hna. rewrite (enrich_with_data _ _ _ Hdata).
  destruct rawPapers as [|raw l]; [done|].
  cbn [array_map]. unfold merge_paper at 1.
  by destruct data; [..|destruct (Hna items)|]; cbn [call_find bind].
Qed.

Lemma enrich_non_array_falls_back_witness :
  enrichPapersWithGemini
    (gemini_answers (JObj [("papers", JArr [sample_annotation "2301.00001"])]))
    (sample_raw <$> ["2301.00001"])
  = Normal (fallback_paper <$> (sample_raw <$> ["2301.00001"])).
Proof.
  by apply (enrich_non_array_falls_back _ _
              (JObj [("papers", JArr [sample_annotation "2301.00001"])])).
Defined.

(** X15: one [null] among the entries is enough to lose every annotation:
    when the array holds a [null] and some record of the batch has no
    entry, the search for that record's entry throws, and the whole batch,
    the matched records too, gets the fixed fallback annotation. *)
Theorem enrich_null_entry_falls_back g rawPapers items raw :
  enrichedData_of g = Normal (JArr items) →
  JNull ∈ items →
  raw ∈ rawPapers →
  has_entry_for (RawArxivPaper.id raw) (JArr items) = false →
  enrichPapersWithGemini g rawPapers = Normal (fallback_paper <$> rawPapers).
Proof.
  intros Hdata Hnull Hraw Hno. rewrite (enrich_with_data _ _ _ Hdata).
  destruct (array_find_null (RawArxivPaper.id raw) items Hnull Hno) as [e He].
  assert (merge_paper (JArr items) raw = Throw e) as Hm.
  { unfold merge_paper. cbn [call_find]. by rewrite He. }
  destruct (array_map_throws _ _ _ _ Hraw Hm) as [e' ->].
  by destruct rawPapers.
Qed.

Lemma enrich_null_entry_falls_back_witness :
  enrichPapersWithGemini
    (gemini_answers (JArr [sample_annotation "2301.00001"; JNull]))
    (sample_raw <$> ["2301.00001"; "2301.00002"])
  = Normal (fallback_paper <$> (sample_raw <$> ["2301.00001"; "2301.00002"])).
Proof.
  apply (enrich_null_entry_falls_back _ _
           [sample_annotation "2301.00001"; JNull] (sample_raw "2301.00002"));
    [reflexivity|present_in_list|present_in_list|compute_refl].
Defined.

(** X16: when the service answers with a text that [JSON.parse] rejects,
    every record gets the translating placeholders and its title as
    summary, not the fixed fallback of a failed call. *)
Theorem enrich_unparsable_text g rawPapers text e :
  Gemini.generateContent g = Normal text →
  Gemini.JSON_parse g (jsonText_of text) = Throw e →
  ∃ out, enrichPapersWithGemini g rawPapers = Normal out
         ∧ frame <$> out = raw_frame <$> rawPapers
         ∧ annotation <$> out = unannotated <$> rawPapers.
Proof.
  intros Htext Hparse.
  assert (enrichedData_of g = Normal (JArr [])) as Hdata.
  { unfold enrichedData_of. rewrite Htext. cbn [bind].
    unfold parse_enriched. by rewrite Hparse. }
  rewrite (enrich_with_data _ _ _ Hdata).
  assert (∃ out, array_map (merge_paper (JArr [])) rawPapers = Normal out
                 ∧ frame <$> out = raw_frame <$> rawPapers
                 ∧ annotation <$> out = unannotated <$> rawPapers)
    as (out & Hout & Hf & Ha).
  { induction rawPapers as [|raw l (out & Hout & Hf & Ha)]; [by eexists|].
    eexists. cbn [array_map]. rewrite Hout. split; [done|].
    by rewrite !fmap_cons, Hf, Ha. }
  exists out. rewrite Hout. by destruct rawPapers.
Qed.

Lemma enrich_unparsable_text_witness :
  ∃ out,
    enrichPapersWithGemini
      {| Gemini.generateContent := Normal (Some "Sorry, I cannot help with that.");
         Gemini.JSON_parse := λ _, Throw (SyntaxError "Unexpected token S") |}
      (sample_raw <$> ["2301.00001"]) = Normal out
    ∧ annotation <$> out = unannotated <$> (sample_raw <$> ["2301.00001"]).
Proof.
  destruct (enrich_unparsable_text
              {| Gemini.generateContent := Normal (Some "Sorry, I cannot help with that.");
                 Gemini.JSON_parse := λ _, Throw (SyntaxError "Unexpected token S") |}
              (sample_raw <$> ["2301.00001"]) _ _ eq_refl eq_refl)
    as (out & Hout & _ & Ha).
  by exists out.
Defined.

(** ** The pipeline *)

(** X17: [fetchRecommendations] never throws; it returns one record for
    each raw record the fetcher returned, with the same identifiers in the
    same order; and when every proxy fails it returns the empty list
    whatever the generative-text service would have answered. *)
Theorem fetchRecommendations_never_throws w context startIndex :
  ∃ raw papers,
    fetchFromArxiv (World.browser w) startIndex context = Normal raw
    ∧ fetchRecommendations w context startIndex = Normal papers
    ∧ Paper.id <$> papers = RawArxivPaper.id <$> raw
    ∧ ((∀ p, p ∈ proxies →
          fails (World.browser w) (p (targetUrl (World.browser w) startIndex context))) →
       papers = []).
Proof.
  destruct (try_proxies_total (World.browser w)
              (targetUrl (World.browser w) startIndex context) proxies)
    as [raw Hraw].
  destruct (enrich_aligned (World.gemini w) raw) as (papers & Hp & Hall).
  exists raw, papers. split; [done|]. split.
  { unfold fetchRecommendations, fetchFromArxiv.
    fold (targetUrl (World.browser w) startIndex context). by rewrite Hraw. }
  split.
  - clear Hp Hraw. induction Hall as [|r p ?? Hrp _ IH]; [done|].
    rewrite !fmap_cons. f_equal; [by injection Hrp|done].
  - intros Hfail. apply try_proxies_all_fail in Hfail.
    rewrite Hfail in Hraw. injection Hraw as <-. by injection Hp as <-.
Qed.

Lemma fetchRecommendations_never_throws_witness :
  fetchRecommendations
    {| World.browser := no_proxy_works;
       World.gemini := gemini_answers (JArr [sample_annotation "2301.00001"]) |}
    no_likes 0
  = Normal [].
Proof.
  destruct (fetchRecommendations_never_throws
              {| World.browser := no_proxy_works;
                 World.gemini := gemini_answers (JArr [sample_annotation "2301.00001"]) |}
              no_likes 0) as (raw & papers & _ & Hp & _ & Hnone).
  rewrite Hp. f_equal. apply Hnone. intros p Hp'. unfold proxies in Hp'.
  apply elem_of_cons in Hp' as [->|Hp'];
    [by eapply bad_status; vm_compute|].
  apply elem_of_cons in Hp' as [->|Hp']; [|by apply elem_of_nil in Hp'].
  by eapply markup_missing; vm_compute.
Defined.

(** ** The buffer manager, continued *)

Section buffer_more.

Import App.

Lemma uniqueNew_length prev currentLiked newPapers :
  length (uniqueNew prev currentLiked newPapers) ≤ length newPapers.
Proof. unfold uniqueNew. apply length_filter. Qed.

Lemma resume_fields call result st :
  let st' := loadMorePapers_resume call result st in
  likedPapers st' = likedPapers st
  ∧ pending st' = pending st
  ∧ nextStartIndexRef st ≤ nextStartIndexRef st'
  ∧ length (papers st') + nextStartIndexRef st
    ≤ length (papers st) + nextStartIndexRef st'.
Proof.
  unfold loadMorePapers_resume. cbv zeta.
  destruct result as [newPapers|]; [|simpl; repeat split; lia].
  destruct (0 <? length newPapers); simpl; [|repeat split; lia].
  rewrite length_app.
  pose proof (uniqueNew_length (papers st) (Pending.currentLiked call) newPapers).
  repeat split; lia.
Qed.

(** What a step does to the sizes and to the cursor. *)
Lemma step_sizes e st st' :
  step e st = Some st' →
  nextStartIndexRef st ≤ nextStartIndexRef st'
  ∧ length (papers st') + length (likedPapers st') + nextStartIndexRef st
    ≤ length (papers st) + length (likedPapers st) + nextStartIndexRef st'.
Proof.
  destruct e as [d| |i w]; simpl.
  - unfold handleSwipe. destruct (papers st) as [|p rest]; [done|]. simpl.
    intros [= <-].
    match goal with |- context [rerender ?a ?b ?c] =>
      destruct (rerender_papers a b c) as (-> & -> & ->) end.
    simpl. destruct d; rewrite ?length_app; simpl; lia.
  - destruct (papers st) eqn:Hp; [|done]. intros [= <-].
    match goal with |- context [rerender ?a ?b ?c] =>
      destruct (rerender_papers a b c) as (-> & -> & ->) end.
    destruct (loadMorePapers_papers (likedPapers st) true st) as (-> & -> & ->).
    rewrite Hp. lia.
  - destruct (pending st !! i) as [call|]; [|done]. simpl. intros [= <-].
    match goal with |- context [rerender ?a ?b ?c] =>
      destruct (rerender_papers a b c) as (-> & -> & ->) end.
    match goal with |- context [loadMorePapers_resume ?a ?b ?c] =>
      destruct (resume_fields a b c) as (-> & _ & Hc & Hs) end.
    simpl in *. lia.
Qed.

Lemma loadMorePapers_fetching cl init st :
  fetchingRef (loadMorePapers cl init st) = true.
Proof. unfold loadMorePapers. by destruct (fetchingRef st) eqn:Hf. Qed.

Lemma prefetch_effect_loading st :
  (loading st = true → fetchingRef st = true) →
  loading (prefetch_effect st) = true → fetchingRef (prefetch_effect st) = true.
Proof.
  unfold prefetch_effect. case_match; [|done].
  intros _ _. apply loadMorePapers_fetching.
Qed.

Lemma rerender_loading before after changed :
  (loading after = true → fetchingRef after = true) →
  loading (rerender before after changed) = true →
  fetchingRef (rerender before after changed) = true.
Proof. unfold rerender. case_match; [apply prefetch_effect_loading|done]. Qed.

Lemma step_loading e st st' :
  (loading st = true → fetchingRef st = true) →
  step e st = Some st' →
  loading st' = true → fetchingRef st' = true.
Proof.
  intros Hst. destruct e as [d| |i w]; simpl.
  - unfold handleSwipe. destruct (papers st) as [|p rest]; [done|]. simpl.
    intros [= <-]. by apply rerender_loading.
  - destruct (papers st); [|done]. intros [= <-].
    apply rerender_loading. intros _. apply loadMorePapers_fetching.
  - destruct (pending st !! i) as [call|]; [|done]. simpl. intros [= <-].
    apply rerender_loading. unfold loadMorePapers_resume.
    by repeat case_match.
Qed.

Lemma run_invariant (P : State → Prop) events :
  (∀ e st st', P st → step e st = Some st' → P st') →
  ∀ st st', P st → run events st = Some st' → P st'.
Proof.
  intros Hstep. induction events as [|e events IH]; intros st st' HP; simpl.
  - by intros [= <-].
  - destruct (step e st) as [st1|] eqn:He; [|done]. simpl.
    apply IH. by eapply Hstep.
Qed.

End buffer_more.

(** X18: the cursor never goes back: along any run it only stays or
    grows. *)
Theorem cursor_never_decreases events st st' :
  App.run events st = Some st' →
  App.nextStartIndexRef st ≤ App.nextStartIndexRef st'.
Proof.
  revert st. induction events as [|e events IH]; intros st; simpl.
  - by intros [= <-].
  - destruct (App.step e st) as [st1|] eqn:He; [|done]. simpl. intros Hrun.
    apply step_sizes in He as [He _]. apply IH in Hrun. lia.
Qed.

Lemma cursor_never_decreases_witness :
  ∃ st, App.run to_three_unseen App.startup = Some st
        ∧ App.nextStartIndexRef st = 15
        ∧ App.nextStartIndexRef App.startup ≤ App.nextStartIndexRef st.
Proof.
  assert (∃ st, App.run to_three_unseen App.startup = Some st
                ∧ App.nextStartIndexRef st = 15) as (st & Hrun & Hc).
  { eexists. split; compute_refl. }
  exists st. split; [exact Hrun|]. split; [exact Hc|].
  exact (cursor_never_decreases _ _ _ Hrun).
Defined.

(** X19: in every state of a session the records held, buffer and liked
    collection together, are no more than the cursor: every record that
    came in was counted. *)
Theorem cursor_counts_what_came_in st :
  App.reachable st →
  length (App.papers st) + length (App.likedPapers st) ≤ App.nextStartIndexRef st.
Proof.
  intros [events Hrun]. revert Hrun.
  apply (run_invariant
           (λ st, length (App.papers st) + length (App.likedPapers st)
                  ≤ App.nextStartIndexRef st) events); [|simpl; lia].
  intros e s s' Hs He. apply step_sizes in He. lia.
Qed.

Lemma cursor_counts_what_came_in_witness :
  ∃ st, App.run to_three_unseen App.startup = Some st
        ∧ length (App.papers st) + length (App.likedPapers st) = 8
        ∧ length (App.papers st) + length (App.likedPapers st)
          ≤ App.nextStartIndexRef st.
Proof.
  assert (∃ st, App.run to_three_unseen App.startup = Some st
                ∧ length (App.papers st) + length (App.likedPapers st) = 8)
    as (st & Hrun & Hc).
  { eexists. split; compute_refl. }
  exists st. split; [exact Hrun|]. split; [exact Hc|].
  exact (cursor_counts_what_came_in st (ex_intro _ _ Hrun)).
Defined.

(** X20: the loading skeleton (an empty buffer with [loading] set) goes
    with a fetch in flight in every state from the mount effects on: the
    guard flag is set and one activation is suspended.  The one state that
    shows it with nothing in flight is the very first render, before the
    initial-load effect has run. *)
Theorem loader_means_fetching :
  (View.empty_state App.initial = Some View.Loader
   ∧ App.fetchingRef App.initial = false
   ∧ App.pending App.initial = []
   ∧ App.mount App.initial = App.startup)
  ∧ ∀ st,
      App.reachable st →
      View.empty_state st = Some View.Loader →
      App.fetchingRef st = true ∧ length (App.pending st) = 1.
Proof.
  split; [done|]. intros st Hr Hview.
  assert (App.loading st = true) as Hl.
  { unfold View.empty_state in Hview.
    destruct (length (App.papers st) =? 0); [|done].
    by destruct (App.loading st). }
  assert (App.fetchingRef st = true) as Hf.
  { destruct Hr as [events Hrun]. revert Hrun Hl.
    apply (run_invariant
             (λ st, App.loading st = true → App.fetchingRef st = true) events);
      [|done].
    intros e s s' Hs He. by eapply step_loading. }
  split; [done|]. apply reachable_guarded in Hr. unfold guarded in Hr.
  rewrite Hf in Hr. by destruct Hr as (call & -> & _).
Qed.

Lemma loader_means_fetching_witness :
  View.empty_state App.startup = Some View.Loader
  ∧ App.fetchingRef App.startup = true
  ∧ length (App.pending App.startup) = 1.
Proof.
  split; [reflexivity|].
  apply (proj2 loader_means_fetching); [by exists []|reflexivity].
Defined.

Section watermark.

Import App.

Lemma swipe_unfold d st p rest :
  papers st = p :: rest →
  step (Swipe d) st
  = Some (prefetch_effect
            {| papers := rest;
               likedPapers :=
                 match d with
                 | RIGHT => likedPapers st ++ [p]
                 | LEFT => likedPapers st
                 end;
               loading := loading st;
               fetchingRef := fetchingRef st;
               nextStartIndexRef := nextStartIndexRef st;
               pending := pending st |}).
Proof.
  intros Hp. cbn [step]. unfold handleSwipe. rewrite Hp. cbn [mbind option_bind].
  unfold rerender. cbn [papers]. rewrite Hp. cbn [length].
  by rewrite (proj2 (Nat.eqb_neq (S (length rest)) (length rest))) by lia.
Qed.

End watermark.

(** X21: swiping away the last card never starts a fetch: the prefetch
    asks for [papers.length > 0], so the step leaves the guard flag, the
    suspended activations and the cursor as they were, and the liked
    collection is what the swipe made it. *)
Theorem last_card_starts_no_fetch direction st st' :
  App.step (App.Swipe direction) st = Some st' →
  App.papers st' = [] →
  App.fetchingRef st' = App.fetchingRef st
  ∧ App.pending st' = App.pending st
  ∧ App.nextStartIndexRef st' = App.nextStartIndexRef st
  ∧ View.empty_state st'
    = Some (if App.loading st then View.Loader else View.NoMorePapers).
Proof.
  destruct (App.papers st) as [|p rest] eqn:Hp.
  { simpl. unfold App.handleSwipe. by rewrite Hp. }
  rewrite (swipe_unfold _ _ _ _ Hp). intros [= <-] Hempty.
  destruct (prefetch_effect_papers
    {| App.papers := rest;
       App.likedPapers :=
         match direction with
         | RIGHT => App.likedPapers st ++ [p]
         | LEFT => App.likedPapers st
         end;
       App.loading := App.loading st;
       App.fetchingRef := App.fetchingRef st;
       App.nextStartIndexRef := App.nextStartIndexRef st;
       App.pending := App.pending st |}) as (Hrest & _ & _).
  rewrite Hempty in Hrest. simpl in Hrest. subst rest.
  unfold App.prefetch_effect, View.empty_state. simpl.
  by rewrite andb_false_r.
Qed.

Lemma last_card_starts_no_fetch_witness :
  ∃ st st',
    App.run (to_three_unseen ++ [App.Swipe LEFT;
               App.FetchDone 0 (world_serving five_ids); App.Swipe LEFT;
               App.FetchDone 0 (world_serving five_ids)])
      App.startup = Some st
    ∧ length (App.papers st) = 1
    ∧ App.step (App.Swipe LEFT) st = Some st'
    ∧ App.fetchingRef st' = false
    ∧ App.pending st' = []
    ∧ View.empty_state st' = Some View.NoMorePapers.
Proof.
  assert (∃ st st',
            App.run (to_three_unseen ++ [App.Swipe LEFT;
                       App.FetchDone 0 (world_serving five_ids); App.Swipe LEFT;
                       App.FetchDone 0 (world_serving five_ids)])
              App.startup = Some st
            ∧ length (App.papers st) = 1
            ∧ App.fetchingRef st = false
            ∧ App.pending st = []
            ∧ App.loading st = false
            ∧ App.step (App.Swipe LEFT) st = Some st'
            ∧ App.papers st' = [])
    as (st & st' & Hrun & Hlen & Hf & Hq & Hl & Hstep & Hempty).
  { eexists _, _. split; [compute_refl|]. split; [compute_refl|].
    split; [compute_refl|]. split; [compute_refl|]. split; [compute_refl|].
    split; compute_refl. }
  exists st, st'. split; [exact Hrun|]. split; [exact Hlen|].
  split; [exact Hstep|].
  destruct (last_card_starts_no_fetch LEFT st st' Hstep Hempty)
    as (Hf' & Hq' & _ & Hv).
  rewrite Hf', Hq', Hv, Hf, Hq, Hl. repeat split.
Defined.

(** X22: a swipe made while no fetch is in flight that leaves one to three
    cards starts exactly one fetch, and that fetch is given the liked list
    as the swipe left it (the card just liked included) and the cursor as
    it stands. *)
Theorem low_buffer_starts_fetch direction st st' :
  guarded st →
  App.fetchingRef st = false →
  App.step (App.Swipe direction) st = Some st' →
  0 < length (App.papers st') < App.PREFETCH_THRESHOLD →
  App.fetchingRef st' = true
  ∧ ∃ call,
      App.pending st' = [call]
      ∧ Pending.currentLiked call = App.likedPapers st'
      ∧ RecommendationContext.likedPapers (Pending.context call)
        = Paper.title <$> App.likedPapers st'
      ∧ Pending.startIndex call = App.nextStartIndexRef st'
      ∧ Pending.isInitialLoad call = false.
Proof.
  intros Hg Hf. unfold guarded in Hg. rewrite Hf in Hg.
  destruct (App.papers st) as [|p rest] eqn:Hp.
  { simpl. unfold App.handleSwipe. by rewrite Hp. }
  rewrite (swipe_unfold _ _ _ _ Hp). intros [= <-].
  match goal with |- context [App.prefetch_effect ?s] =>
    destruct (prefetch_effect_papers s) as (-> & -> & ->) end.
  simpl. intros [Hpos Hlow].
  unfold App.prefetch_effect, App.loadMorePapers. simpl. rewrite Hf, Hg. simpl.
  rewrite (proj2 (Nat.ltb_lt (length rest) App.PREFETCH_THRESHOLD)) by done.
  rewrite (proj2 (Nat.ltb_lt 0 (length rest))) by done.
  simpl. split; [done|]. by eexists.
Qed.

Lemma low_buffer_starts_fetch_witness :
  ∃ st st' call,
    App.run to_three_unseen App.startup = Some st
    ∧ App.step (App.Swipe RIGHT) st = Some st'
    ∧ length (App.papers st') = 2
    ∧ App.pending st' = [call]
    ∧ length (Pending.currentLiked call) = 6.
Proof.
  assert (∃ st st',
            App.run to_three_unseen App.startup = Some st
            ∧ App.fetchingRef st = false
            ∧ App.step (App.Swipe RIGHT) st = Some st'
            ∧ length (App.papers st') = 2
            ∧ length (App.likedPapers st') = 6)
    as (st & st' & Hrun & Hf & Hstep & Hlen & Hliked).
  { eexists _, _. split; [compute_refl|]. split; [compute_refl|].
    split; [compute_refl|]. split; compute_refl. }
  destruct (low_buffer_starts_fetch RIGHT st st'
              (reachable_guarded st (ex_intro _ _ Hrun)) Hf Hstep)
    as (_ & call & Hcall & Hcl & _).
  { rewrite Hlen. unfold App.PREFETCH_THRESHOLD. lia. }
  exists st, st', call. split; [exact Hrun|]. split; [exact Hstep|].
  split; [exact Hlen|]. split; [exact Hcall|]. rewrite Hcl. exact Hliked.
Defined.

(** X23: a fetch that lands only appends to the buffer: what was there
    stays in place, and what is added is a part of the batch, in batch
    order, none of it with an identifier the buffer held or the liked list
    held when the fetch started; so a buffer without repeated identifiers
    stays so when the batch has none. *)
Theorem fetch_appends_fresh st i w call newPapers st' :
  App.pending st !! i = Some call →
  fetchRecommendations w (Pending.context call) (Pending.startIndex call)
  = Normal newPapers →
  App.step (App.FetchDone i w) st = Some st' →
  ∃ added,
    App.papers st' = App.papers st ++ added
    ∧ added `sublist_of` newPapers
    ∧ Forall (λ p, (Paper.id p ∉ Paper.id <$> App.papers st)
                   ∧ (Paper.id p ∉ Paper.id <$> Pending.currentLiked call)) added
    ∧ (NoDup (Paper.id <$> App.papers st) →
       NoDup (Paper.id <$> newPapers) →
       NoDup (Paper.id <$> App.papers st')).
Proof.
  intros Hi Hres. rewrite (fetch_done_unfold _ _ _ _ Hi), Hres. intros [= <-].
  match goal with |- context [App.rerender ?a ?b ?c] =>
    destruct (rerender_papers a b c) as (-> & _ & _) end.
  unfold App.loadMorePapers_resume. simpl.
  destruct (0 <? length newPapers); simpl.
  - exists (App.uniqueNew (App.papers st) (Pending.currentLiked call) newPapers).
    split; [done|]. split; [apply sublist_filter|]. split.
    + apply Forall_forall. intros p Hp. by apply uniqueNew_spec in Hp as (_ & ? & ?).
    + intros Hbuf Hnew. rewrite fmap_app. apply NoDup_app. split; [done|].
      split; [|by apply uniqueNew_ids_unique].
      intros x Hx (q & -> & Hq)%list_elem_of_fmap.
      by apply uniqueNew_spec in Hq as (_ & ? & _).
  - exists []. rewrite app_nil_r. split; [done|]. split; [apply sublist_nil_l|].
    split; [constructor|done].
Qed.

Lemma fetch_appends_fresh_witness :
  ∃ st call newPapers st' added,
    App.run like_during_fetch App.startup = Some st'
    ∧ App.step (App.FetchDone 0 (world_serving ["2301.00001"; "2301.00004"])) st
      = Some st'
    ∧ App.pending st !! 0 = Some call
    ∧ Paper.id <$> newPapers = ["2301.00001"; "2301.00004"]
    ∧ App.papers st' = App.papers st ++ added
    ∧ added `sublist_of` newPapers.
Proof.
  assert (∃ st call newPapers st',
            App.run like_during_fetch App.startup = Some st'
            ∧ App.step (App.FetchDone 0 (world_serving ["2301.00001"; "2301.00004"])) st
              = Some st'
            ∧ App.pending st !! 0 = Some call
            ∧ fetchRecommendations (world_serving ["2301.00001"; "2301.00004"])
                (Pending.context call) (Pending.startIndex call) = Normal newPapers
            ∧ Paper.id <$> newPapers = ["2301.00001"; "2301.00004"])
    as (st & call & newPapers & st' & Hrun & Hstep & Hcall & Hres & Hids).
  { eexists (default App.startup
               (App.run (take 2 like_during_fetch) App.startup)), _, _, _.
    split; [compute_refl|]. split; [compute_refl|]. split; [compute_refl|].
    split; compute_refl. }
  destruct (fetch_appends_fresh st 0 _ call newPapers st' Hcall Hres Hstep)
    as (added & Hp & Hsub & _).
  exists st, call, newPapers, st', added.
  split; [exact Hrun|]. split; [exact Hstep|]. split; [exact Hcall|].
  split; [exact Hids|]. split; [exact Hp|exact Hsub].
Defined.

(** ** The screen and the card *)

Section screen.

Lemma imap_all_none {A B} (l : list A) : ∀ f : nat → A → option B,
  (∀ i x, l !! i = Some x → f i x = None) → omap id (imap f l) = [].
Proof.
  induction l as [|a l IH]; intros f Hf; [done|].
  rewrite imap_cons. cbn [omap]. rewrite (Hf 0 a) by done. simpl.
  apply IH. intros i x Hi. by apply (Hf (S i)).
Qed.

End screen.

(** X24: whatever the length of the buffer, at most two cards are
    rendered: the second record of the buffer behind, then the first one on
    top, and only the first is the front card (the one that can be
    dragged). *)
Theorem rendered_cards_top_two papers :
  View.rendered_cards papers
  = match papers with
    | [] => []
    | [top] => [(top, true)]
    | top :: second :: _ => [(second, false); (top, true)]
    end.
Proof.
  destruct papers as [|top [|second rest]]; [done..|].
  unfold View.rendered_cards, View.card_stack.
  rewrite !reverse_cons, <- (assoc_L (++)). cbn [length app].
  replace (S (S (length rest)) - 2) with (length rest) by lia.
  replace (S (S (length rest)) - 1) with (S (length rest)) by lia.
  rewrite imap_app, omap_app, imap_all_none.
  - rewrite length_reverse. cbn [imap omap app]. unfold compose.
    rewrite !(proj2 (Nat.ltb_ge _ _)) by lia.
    rewrite (proj2 (Nat.eqb_neq (length rest + 0) _)) by lia.
    by rewrite (proj2 (Nat.eqb_eq (length rest + 1) _)) by lia.
  - intros i x Hi%lookup_lt_Some. rewrite length_reverse in Hi.
    by rewrite (proj2 (Nat.ltb_lt _ _)) by lia.
Qed.

(** X25: the card shows at most three tags, and it can only show tags
    that are an array; the records of the fallback paths always have one.
    The enrichment stage passes on whatever truthy [tags] an entry holds:
    when that is not an array (a string, say), the merged record is
    returned all the same and the card's tag expression throws on it. *)
Theorem tag_badges_need_an_array :
  (∀ tags badges,
     PaperCard.tag_badges tags = Normal badges →
     length badges ≤ 3 ∧ ∃ items, tags = JArr items ∧ badges = take 3 items)
  ∧ (∀ raw, PaperCard.tag_badges (Paper.tags (fallback_paper raw))
            = Normal [JStr "ArXiv"])
  ∧ (∀ items raw p,
       merge_paper (JArr items) raw = Normal p →
       first_entry_for (RawArxivPaper.id raw) items = None →
       PaperCard.tag_badges (Paper.tags p) = Normal [JStr "New Paper"])
  ∧ (∀ items raw members value,
       JNull ∉ items →
       first_entry_for (RawArxivPaper.id raw) items = Some (JObj members) →
       member "tags" members = Some value →
       truthy value = true →
       (∀ l, value ≠ JArr l) →
       ∃ p e, merge_paper (JArr items) raw = Normal p
              ∧ PaperCard.tag_badges (Paper.tags p) = Throw e).
Proof.
  split; [|split; [done|split]].
  - intros tags badges H. destruct tags; try done. injection H as <-.
    split; [rewrite length_take; lia|by eexists].
  - intros items raw p Hp Hnone.
    assert (has_entry_for (RawArxivPaper.id raw) (JArr items) = false) as Hno.
    { simpl. apply not_true_is_false. intros (e & He & Hm)%existsb_exists.
      unfold first_entry_for in Hnone.
      by rewrite (find_none _ _ Hnone e He) in Hm. }
    pose proof (merge_paper_unannotated _ _ _ Hno Hp) as Ha.
    unfold annotation, unannotated in Ha. by injection Ha as _ _ ->.
  - intros items raw members value Hnull Hfirst Hm Ht Hna.
    destruct (merge_paper_without_null items raw Hnull) as (p & Hp & _ & Ha).
    rewrite Hfirst in Ha. unfold annotation, merged_annotation in Ha.
    injection Ha as _ _ Htags. rewrite Hm in Htags. cbn [or_else] in Htags.
    rewrite Ht in Htags. exists p. rewrite Htags.
    destruct value as [| | | |l|];
      first [by destruct (Hna l) | eexists; split; [exact Hp|reflexivity]].
Qed.

Lemma tag_badges_need_an_array_witness :
  ∃ p e,
    merge_paper
      (JArr [JObj [("id", JStr "2301.00001"); ("tags", JStr "LLM, RL, Planning")]])
      (sample_raw "2301.00001") = Normal p
    ∧ PaperCard.tag_badges (Paper.tags p) = Throw e.
Proof.
  destruct tag_badges_need_an_array as (_ & _ & _ & H).
  apply (H _ _ [("id", JStr "2301.00001"); ("tags", JStr "LLM, RL, Planning")]
           (JStr "LLM, RL, Planning"));
    [absent_from_list|compute_refl|reflexivity|reflexivity|discriminate].
Defined.

(** X26: the colour of a card is always one of the four gradients: the
    index computed from the identifier is within the list, for the empty
    identifier too. *)
Theorem bgGradient_defined paper :
  ∃ hue, PaperCard.bgGradient paper = Some hue ∧ hue ∈ PaperCard.hues.
Proof.
  unfold PaperCard.bgGradient.
  destruct (PaperCard.hues
              !! N.to_nat (PaperCard.hash (Paper.id paper)
                           mod N.of_nat (length PaperCard.hues))) as [hue|] eqn:H.
  - exists hue. split; [done|]. by eapply list_elem_of_lookup_2.
  - apply lookup_ge_None in H. simpl in H.
    pose proof (N.mod_upper_bound (PaperCard.hash (Paper.id paper)) 4). lia.
Qed.

